(** * Provider resolution and fallback: a shallow embedding

    The functions below embed [backend/app/core/plugin_loader.py]
    ([PLUGIN_REGISTRY], [PluginLoader.load], [PluginLoader.clear_cache]) and
    [backend/app/core/ai_fallback.py] ([AIProviderWithFallback]) together with
    the two fields of [backend/app/core/config.py] that they read
    ([provider] and [fallback]).

    Python dictionaries are finite maps, exceptions are values of [exn],
    the module level mutable state is an explicit [Store], and every logger
    call is an [event] appended to the output of the computation. *)

From Stdlib Require Import Ascii String.
From stdpp Require Import gmap strings list.

Open Scope string_scope.
Open Scope list_scope.

(** ** Strings: [str.lower()] and the [in] operator *)

(** [str.lower()] on the ASCII range.  Messages are byte strings here; a
    multi-byte UTF-8 sequence holds no ASCII byte, so searching an ASCII
    needle in the bytes is searching it in the code points. *)
Definition ascii_lower (c : ascii) : ascii :=
  let n := N_of_ascii c in
  if ((65 <=? n) && (n <=? 90))%N then ascii_of_N (n + 32) else c.

Fixpoint lower (s : string) : string :=
  match s with
  | EmptyString => EmptyString
  | String c t => String (ascii_lower c) (lower t)
  end.

(** [needle in hay] for two Python strings. *)
Fixpoint contains (needle hay : string) : bool :=
  String.prefix needle hay ||
  match hay with
  | EmptyString => false
  | String _ t => contains needle t
  end.

(** ** Configuration ([config.py]) *)

(** The [fallback] attribute of a provider configuration: [TTSConfig] and
    others do not declare it, [ContentConfig] declares a [str], [AIConfig] a
    [List[str]]. *)
Inductive Fallback : Type :=
| FbAbsent
| FbList (names : list string)
| FbStr (name : string).

Record ProviderConfig : Type := {
  provider : string;
  fallback : Fallback
}.

(** ** Registry ([PLUGIN_REGISTRY]) *)

Definition PLUGIN_REGISTRY : list (string * list (string * string)) :=
  [ ("content",
      [ ("reddit", "app.plugins.content.reddit_plugin.RedditProvider");
        ("quotes", "app.plugins.content.quotes_plugin.QuotesProvider");
        ("facts", "app.plugins.content.facts_plugin.FactsProvider") ]);
    ("ai",
      [ ("langchain", "app.plugins.ai.langchain_plugin.LangChainProvider");
        ("crewai", "app.plugins.ai.crewai_plugin.CrewAIProvider");
        ("openai_direct", "app.plugins.ai.openai_plugin.OpenAIProvider");
        ("groq", "app.plugins.ai.groq_plugin.GroqProvider");
        ("huggingface", "app.plugins.ai.huggingface_plugin.HuggingFaceProvider") ]);
    ("tts",
      [ ("gtts", "app.plugins.tts.gtts_plugin.GTTSProvider");
        ("elevenlabs", "app.plugins.tts.elevenlabs_plugin.ElevenLabsProvider");
        ("edge_tts", "app.plugins.tts.edge_tts_plugin.EdgeTTSProvider") ]);
    ("video",
      [ ("moviepy", "app.plugins.video.moviepy_plugin.MoviePyProvider") ]);
    ("upload",
      [ ("youtube", "app.plugins.upload.youtube_plugin.YouTubeProvider");
        ("none", "app.plugins.upload.none_plugin.NoneProvider") ]);
    ("database",
      [ ("supabase", "app.plugins.database.supabase_plugin.SupabaseProvider");
        ("sqlite", "app.plugins.database.sqlite_plugin.SQLiteProvider") ]) ].

(** [d[k]] guarded by [k in d], for a dictionary written as a literal. *)
Fixpoint dict_get {V : Type} (k : string) (d : list (string * V)) : option V :=
  match d with
  | [] => None
  | (k', v) :: d' => if bool_decide (k' = k) then Some v else dict_get k d'
  end.

(** ** Instances, exceptions, events *)

(** A live provider object: the class it was built from (its dotted path in
    the registry) and its identity, the moment of its construction. *)
Record Instance : Type := {
  inst_class : string;
  inst_id : nat
}.

#[global] Instance Instance_eq_dec : EqDecision Instance.
Proof. solve_decision. Defined.

(** What the final [RuntimeError] of each function is formatted from. *)
Inductive report : Type :=
| LoadFailed (plugin_type : string) (tried : list string) (last_error : option string)
  (** "Failed to load {plugin_type} plugin. Tried providers: {providers_to_try}.
      Last error: {str(last_error)}" *)
| AllAIFailed (tried : list string) (last_error : option string)
  (** "All AI providers failed. Tried: {tried_providers}. Last error: {last_error}" *).

Inductive exn : Type :=
| ProviderRaised (msg : string)   (** raised by an import, a constructor or an operation *)
| ValueError (msg : string)
| AttributeError (attr : string)
| RuntimeError (r : report).

(** [str(e)] for the exceptions that reach a [str()] call. *)
Definition exn_str (e : exn) : string :=
  match e with
  | ProviderRaised msg => msg
  | ValueError msg => msg
  | AttributeError attr => attr
  | RuntimeError _ => "RuntimeError"
  end.

Inductive res (A : Type) : Type :=
| Ok (a : A)
| Raise (e : exn).
Arguments Ok {A} a.
Arguments Raise {A} e.

(** The calls to the logger and console, in the order of the source, and the
    two calls that leave the core: constructing a provider and invoking its
    operation. *)
Inductive event : Type :=
| EvCacheHit (plugin_type : string)
| EvLoading (plugin_type : string)
| EvAttempt (plugin_type provider_name : string)
| EvUnknownProvider (plugin_type provider_name : string)
| EvImporting (class_path : string)
| EvConstructed (plugin_type provider_name : string) (inst : Instance)
| EvConstructFailed (plugin_type provider_name msg : string)
| EvProviderInfo (plugin_type provider_name : string)
| EvLoaded (plugin_type provider_name : string) (is_fallback : bool)
| EvLoadWarning (plugin_type provider_name msg : string)
| EvLoadError (plugin_type : string) (tried : list string) (last_error : option string)
| EvCacheCleared
| EvPrimaryFailed (e : exn)
| EvSwitched (provider_name : string)
| EvFallbackFailed (provider_name : string) (e : exn)
| EvGenerating (provider_name : string)
| EvInvoked (provider_name : string) (inst : Instance) (raised : option string)
| EvGenerated (provider_name : string) (is_fallback : bool)
| EvQuota (provider_name : string)
| EvErrorWith (provider_name msg : string)
| EvAllFailed (tried : list string) (last_error : option string).

(** ** The outside world *)

(** What a provider does is outside the core.  [construct t class_path cfg]
    is the outcome of importing the class and calling it on the configuration
    at moment [t] ([None]: an object is returned; [Some msg]: an exception
    whose [str] is [msg]); [operate t inst content] is the outcome of
    [generate_script] on a live instance ([inl msg]: raised; [inr r]:
    returned [r]).  The moment advances at each such call, so a provider may
    fail now and succeed later. *)
Record Env : Type := {
  construct : nat -> string -> ProviderConfig -> option string;
  operate : nat -> Instance -> string -> string + string
}.

(** ** Mutable state and the monad that threads it *)

Record Store : Type := {
  cache : gmap string Instance;            (** [PluginLoader._cache] *)
  settings : gmap string ProviderConfig;   (** the object behind [get_settings()] *)
  tick : nat
}.

Definition M (A : Type) : Type := Store -> Store * list event * A.

Definition ret {A : Type} (a : A) : M A := fun s => (s, [], a).

Definition bind {A B : Type} (m : M A) (k : A -> M B) : M B :=
  fun s =>
    let '(s1, ev1, a) := m s in
    let '(s2, ev2, b) := k a s1 in
    (s2, ev1 ++ ev2, b).

Notation "'do' x <- m ; k" := (bind m (fun x => k))
  (at level 10, x name, m at level 100, k at level 200, only parsing).
Notation "'do' ' p <- m ; k" := (bind m (fun x => let 'p := x in k))
  (at level 10, p strict pattern, m at level 100, k at level 200, only parsing).
Notation "'run' m ; k" := (bind m (fun _ => k))
  (at level 10, m at level 100, k at level 200, only parsing).

Definition emit (e : event) : M unit := fun s => (s, [e], tt).
Definition get : M Store := fun s => (s, [], s).
Definition set_cache (c : gmap string Instance) : M unit :=
  fun s => ({| cache := c; settings := settings s; tick := tick s |}, [], tt).
Definition set_settings (st : gmap string ProviderConfig) : M unit :=
  fun s => ({| cache := cache s; settings := st; tick := tick s |}, [], tt).
Definition next_tick : M nat :=
  fun s => ({| cache := cache s; settings := settings s; tick := S (tick s) |}, [], tick s).

(** ** [PluginLoader] ([plugin_loader.py]) *)

(** Lines 87-99 of [load]: the primary, then the fallbacks other than the
    primary. *)
Definition build_providers_to_try (provider_config : ProviderConfig) : list string :=
  let primary_provider := provider provider_config in
  [primary_provider] ++
  match fallback provider_config with
  | FbAbsent => []
  | FbList fallback_list => filter (fun p => p <> primary_provider) fallback_list
  | FbStr fallback_list =>
      if bool_decide (fallback_list <> "") then
        if bool_decide (fallback_list <> primary_provider) then [fallback_list] else []
      else []
  end.

(** One turn of the [for] loop of [load] (lines 105-150): [inl] is the
    [return] of line 144, [inr] carries [last_error] into the next turn. *)
Definition load_candidate (E : Env) (plugin_type : string)
    (provider_config : ProviderConfig) (primary_provider provider_name : string)
    (last_error : option exn) : M (Instance + option exn) :=
  run emit (EvAttempt plugin_type provider_name);
  match dict_get plugin_type PLUGIN_REGISTRY with
  | None =>
      let e := ValueError ("Unknown plugin type: " ++ plugin_type)%string in
      run emit (EvLoadWarning plugin_type provider_name (exn_str e));
      ret (inr (Some e))
  | Some providers =>
      match dict_get provider_name providers with
      | None =>
          run emit (EvUnknownProvider plugin_type provider_name);
          ret (inr last_error)
      | Some class_path =>
          run emit (EvImporting class_path);
          do t <- next_tick;
          match construct E t class_path provider_config with
          | Some msg =>
              run emit (EvConstructFailed plugin_type provider_name msg);
              run emit (EvLoadWarning plugin_type provider_name msg);
              ret (inr (Some (ProviderRaised msg)))
          | None =>
              let plugin_instance := {| inst_class := class_path; inst_id := t |} in
              run emit (EvConstructed plugin_type provider_name plugin_instance);
              do s <- get;
              run set_cache (<[plugin_type := plugin_instance]> (cache s));
              run emit (EvProviderInfo plugin_type provider_name);
              run emit (EvLoaded plugin_type provider_name
                          (bool_decide (provider_name <> primary_provider)));
              ret (inl plugin_instance)
          end
      end
  end.

Fixpoint load_loop (E : Env) (plugin_type : string)
    (provider_config : ProviderConfig) (primary_provider : string)
    (providers : list string) (last_error : option exn)
    : M (Instance + option exn) :=
  match providers with
  | [] => ret (inr last_error)
  | provider_name :: rest =>
      do r <- load_candidate E plugin_type provider_config primary_provider
                provider_name last_error;
      match r with
      | inl plugin_instance => ret (inl plugin_instance)
      | inr last_error' =>
          load_loop E plugin_type provider_config primary_provider rest last_error'
      end
  end.

(** Lines 80-159 of [load], past the cache check.  A missing attribute of
    the settings object ([getattr(settings, plugin_type)], or its
    [.provider]) is an [AttributeError] raised outside every [try]. *)
Definition load_fresh (E : Env) (plugin_type : string) : M (res Instance) :=
  run emit (EvLoading plugin_type);
  do s <- get;
  match settings s !! plugin_type with
  | None => ret (Raise (AttributeError plugin_type))
  | Some provider_config =>
      let primary_provider := provider provider_config in
      let providers_to_try := build_providers_to_try provider_config in
      do r <- load_loop E plugin_type provider_config primary_provider
                providers_to_try None;
      match r with
      | inl plugin_instance => ret (Ok plugin_instance)
      | inr last_error =>
          run emit (EvLoadError plugin_type providers_to_try
                      (exn_str <$> last_error));
          ret (Raise (RuntimeError
                 (LoadFailed plugin_type providers_to_try
                    (exn_str <$> last_error))))
      end
  end.

(** [PluginLoader.load(plugin_type, force_reload)]. *)
Definition load (E : Env) (plugin_type : string) (force_reload : bool)
    : M (res Instance) :=
  do s <- get;
  match cache s !! plugin_type, force_reload with
  | Some cached, false =>
      run emit (EvCacheHit plugin_type);
      ret (Ok cached)
  | _, _ => load_fresh E plugin_type
  end.

(** [PluginLoader.clear_cache()]. *)
Definition clear_cache : M unit :=
  run set_cache ∅;
  emit EvCacheCleared.

(** ** [AIProviderWithFallback] ([ai_fallback.py]) *)

(** The fields of the wrapper object.  Its [self.settings] is the object
    behind [get_settings()], the one [load] reads: it lives in the [Store],
    so that what [_load_fallback] writes into it is what [load] sees. *)
Record Wrapper : Type := {
  primary_provider_name : string;
  fallback_providers : Fallback;
  providers_to_try : list string;
  _current_provider : option Instance;
  _current_provider_name : option string
}.

Definition set_current (w : Wrapper) (p : option Instance) (n : option string)
    : Wrapper :=
  {| primary_provider_name := primary_provider_name w;
     fallback_providers := fallback_providers w;
     providers_to_try := providers_to_try w;
     _current_provider := p;
     _current_provider_name := n |}.

(** Lines 31-40 of [__init__].  An absent attribute reads as the default
    [[]] of [getattr], a list. *)
Definition init_providers_to_try (primary_provider_name : string)
    (fallback_providers : Fallback) : list string :=
  [primary_provider_name] ++
  match fallback_providers with
  | FbAbsent => filter (fun p => p <> primary_provider_name) []
  | FbList l => filter (fun p => p <> primary_provider_name) l
  | FbStr s =>
      if bool_decide (s <> "") then
        if bool_decide (s <> primary_provider_name) then [s] else []
      else []
  end.

(** [_load_primary]. *)
Definition _load_primary (E : Env) (w : Wrapper) : M Wrapper :=
  do r <- load E "ai" false;
  match r with
  | Ok p => ret (set_current w (Some p) (Some (primary_provider_name w)))
  | Raise e =>
      run emit (EvPrimaryFailed e);
      ret (set_current w None (_current_provider_name w))
  end.

(** [__init__]. *)
Definition init (E : Env) : M (res Wrapper) :=
  do s <- get;
  match settings s !! "ai" with
  | None => ret (Raise (AttributeError "ai"))
  | Some ai =>
      let w :=
        {| primary_provider_name := provider ai;
           fallback_providers := fallback ai;
           providers_to_try := init_providers_to_try (provider ai) (fallback ai);
           _current_provider := None;
           _current_provider_name := None |} in
      do w' <- _load_primary E w;
      ret (Ok w')
  end.

Definition with_provider (name : string) (c : ProviderConfig) : ProviderConfig :=
  {| provider := name; fallback := fallback c |}.

(** [_load_fallback]: everything is inside one [try]; the provider name is
    put back only on the path where [load] returned. *)
Definition _load_fallback (E : Env) (w : Wrapper) (provider_name : string)
    : M (Wrapper * bool) :=
  do s <- get;
  run set_cache (delete "ai" (cache s));
  match settings s !! "ai" with
  | None =>
      run emit (EvFallbackFailed provider_name (AttributeError "ai"));
      ret (w, false)
  | Some ai =>
      let original_provider := provider ai in
      run set_settings (<["ai" := with_provider provider_name ai]> (settings s));
      do r <- load E "ai" true;
      match r with
      | Ok p =>
          do s' <- get;
          run set_settings (alter (with_provider original_provider) "ai" (settings s'));
          run emit (EvSwitched provider_name);
          ret (set_current w (Some p) (Some provider_name), true)
      | Raise e =>
          run emit (EvFallbackFailed provider_name e);
          ret (w, false)
      end
  end.

(** Line 121: the quota test on the lower-cased message. *)
Definition is_quota_error (error_msg : string) : bool :=
  existsb (fun x => contains x error_msg)
    ["quota"; "rate limit"; "429"; "too many requests";
     "resource_exhausted"; "exceeded"].

(** Lines 92-97: load the provider if it is not the current one; [false] is
    the [continue] of line 97. *)
Definition ensure_loaded (E : Env) (w : Wrapper) (provider_name : string)
    : M (Wrapper * bool) :=
  if bool_decide (_current_provider_name w <> Some provider_name) then
    if bool_decide (provider_name = primary_provider_name w) then
      do w' <- _load_primary E w; ret (w', true)
    else _load_fallback E w provider_name
  else ret (w, true).

(** The [for] loop of [generate_script] (lines 89-132); [quota] is the test
    of the [except] branch, [is_quota_error] in the source.  [inl] is the
    [return result] of line 114, [inr] the end of the loop. *)
Fixpoint generate_loop (E : Env) (quota : string -> bool) (content : string)
    (providers : list string) (w : Wrapper) (last_error : option exn)
    (tried_providers : list string)
    : M (Wrapper * list string * (string + option exn)) :=
  match providers with
  | [] => ret (w, tried_providers, inr last_error)
  | provider_name :: rest =>
      do '(w1, loaded) <- ensure_loaded E w provider_name;
      if negb loaded then
        generate_loop E quota content rest w1 last_error tried_providers
      else
        match _current_provider w1 with
        | None => generate_loop E quota content rest w1 last_error tried_providers
        | Some p =>
            let tried_providers' := tried_providers ++ [provider_name] in
            run emit (EvGenerating provider_name);
            do t <- next_tick;
            match operate E t p content with
            | inr result =>
                run emit (EvInvoked provider_name p None);
                run emit (EvGenerated provider_name
                            (bool_decide (provider_name <> primary_provider_name w1)));
                ret (w1, tried_providers', inl result)
            | inl msg =>
                run emit (EvInvoked provider_name p (Some msg));
                run emit (if quota (lower msg) then EvQuota provider_name
                          else EvErrorWith provider_name msg);
                generate_loop E quota content rest w1
                  (Some (ProviderRaised msg)) tried_providers'
            end
        end
  end.

(** [generate_script(content)]. *)
Definition generate_script (E : Env) (w : Wrapper) (content : string)
    : M (Wrapper * res string) :=
  do '(w', tried_providers, r) <-
    generate_loop E is_quota_error content (providers_to_try w) w None [];
  match r with
  | inl result => ret (w', Ok result)
  | inr last_error =>
      run emit (EvAllFailed tried_providers (exn_str <$> last_error));
      ret (w', Raise (RuntimeError
                 (AllAIFailed tried_providers (exn_str <$> last_error))))
  end.

(** ** Reading a run *)

(** The events [ev], then the computation. *)
Definition after {A : Type} (ev : list event) (x : Store * list event * A)
    : Store * list event * A :=
  let '(s, e, a) := x in (s, ev ++ e, a).

(** The store one moment later. *)
Definition bump (s : Store) : Store :=
  {| cache := cache s; settings := settings s; tick := S (tick s) |}.

(** The candidates [load] announced ("Attempting to load ..."). *)
Definition attempted (evs : list event) : list string :=
  omap (fun e => match e with EvAttempt _ n => Some n | _ => None end) evs.

(** The candidates under whose name an operation was invoked. *)
Definition invoked (evs : list event) : list string :=
  omap (fun e => match e with EvInvoked n _ _ => Some n | _ => None end) evs.

(** The messages of the operations that raised. *)
Definition raised (evs : list event) : list string :=
  omap (fun e => match e with EvInvoked _ _ (Some m) => Some m | _ => None end) evs.

(** The objects whose constructor returned. *)
Definition constructed (evs : list event) : list Instance :=
  omap (fun e => match e with EvConstructed _ _ i => Some i | _ => None end) evs.

(** The constructor calls that raised. *)
Definition construct_failures (evs : list event) : list string :=
  omap (fun e => match e with EvConstructFailed _ n _ => Some n | _ => None end) evs.

(** The messages of the exceptions caught in the loop of [load]. *)
Definition load_warnings (evs : list event) : list string :=
  omap (fun e => match e with EvLoadWarning _ _ m => Some m | _ => None end) evs.

(** Every cached object came out of a constructor that returned, in the
    history [h] of the process. *)
Definition cache_sound (h : list event) (s : Store) : Prop :=
  forall c i, cache s !! c = Some i -> i ∈ constructed h.

(** Every cache entry of [s'] was one of [s] or is an object whose
    constructor returned during [evs]. *)
Definition only_constructed_added (s s' : Store) (evs : list event) : Prop :=
  forall c i, cache s' !! c = Some i -> cache s !! c = Some i \/ i ∈ constructed evs.

(** The class registered for a provider of a capability. *)
Definition registered (plugin_type provider_name : string) : option string :=
  match dict_get plugin_type PLUGIN_REGISTRY with
  | None => None
  | Some providers => dict_get provider_name providers
  end.

(** The classes of the objects whose operation was invoked. *)
Definition invoked_classes (evs : list event) : list string :=
  omap (fun e => match e with EvInvoked _ i _ => Some (inst_class i) | _ => None end) evs.

(** ** The chain and the classifier as the specification words them *)

Definition fallback_names (f : Fallback) : list string :=
  match f with
  | FbAbsent => []
  | FbList l => l
  | FbStr "" => []
  | FbStr s => [s]
  end.

(** Duplicates removed, the first occurrence of each name kept. *)
Fixpoint dedup_first (l : list string) : list string :=
  match l with
  | [] => []
  | x :: t => x :: filter (fun y => y <> x) (dedup_first t)
  end.

(** "[p] followed by the names of f with p removed and duplicates removed". *)
Definition spec_chain (p : string) (f : Fallback) : list string :=
  [p] ++ dedup_first (filter (fun x => x <> p) (fallback_names f)).

(** "contains any of the case-insensitive substrings quota, rate limit, 429,
    resource exhausted". *)
Definition spec_transient (msg : string) : bool :=
  existsb (fun x => contains x (lower msg))
    ["quota"; "rate limit"; "429"; "resource exhausted"].

(** ** Concrete worlds and configurations *)

Definition mk_store (ai : ProviderConfig) : Store :=
  {| cache := ∅; settings := {[ "ai" := ai ]}; tick := 0 |}.

(** Every constructor returns and every operation returns ["R"]. *)
Definition env_ok : Env :=
  {| construct := fun _ _ _ => None;
     operate := fun _ _ _ => inr "R" |}.

(** Every constructor returns and every operation raises. *)
Definition env_quota : Env :=
  {| construct := fun _ _ _ => None;
     operate := fun _ _ _ => inl "429 Too Many Requests" |}.

(** Every constructor raises. *)
Definition env_no_credentials : Env :=
  {| construct := fun _ _ _ => Some "GROQ_API_KEY not found in environment";
     operate := fun _ _ _ => inr "R" |}.

(** Groq's operation raises, every other returns ["R"]. *)
Definition env_groq_down : Env :=
  {| construct := fun _ _ _ => None;
     operate := fun _ i _ =>
       if bool_decide (inst_class i = "app.plugins.ai.groq_plugin.GroqProvider")
       then inl "429 Too Many Requests" else inr "R" |}.


Definition cfg_groq_hf : ProviderConfig :=
  {| provider := "groq"; fallback := FbList ["huggingface"] |}.

Definition cfg_repeated : ProviderConfig :=
  {| provider := "groq"; fallback := FbList ["huggingface"; "huggingface"] |}.

Definition cfg_music : ProviderConfig :=
  {| provider := "suno"; fallback := FbList ["udio"] |}.


(** Only Groq can be constructed, and its operation raises. *)
Definition env_only_groq : Env :=
  {| construct := fun _ class_path _ =>
       if bool_decide (class_path = "app.plugins.ai.groq_plugin.GroqProvider")
       then None else Some "HF_TOKEN not found in environment";
     operate := fun _ _ _ => inl "429 Too Many Requests" |}.

Definition groq_instance : Instance :=
  {| inst_class := "app.plugins.ai.groq_plugin.GroqProvider"; inst_id := 0 |}.

(** The wrapper and the store that [__init__] leaves when Groq, the primary,
    was constructed at moment 0. *)
Definition w_groq : Wrapper :=
  {| primary_provider_name := "groq";
     fallback_providers := FbList ["huggingface"];
     providers_to_try := ["groq"; "huggingface"];
     _current_provider := Some groq_instance;
     _current_provider_name := Some "groq" |}.

Definition s_groq : Store :=
  {| cache := {[ "ai" := groq_instance ]};
     settings := {[ "ai" := cfg_groq_hf ]};
     tick := 1 |}.

(** HuggingFace cannot be constructed, and every operation raises. *)
Definition env_hf_broken : Env :=
  {| construct := fun _ class_path _ =>
       if bool_decide (class_path = "app.plugins.ai.huggingface_plugin.HuggingFaceProvider")
       then Some "HF_TOKEN not found in environment" else None;
     operate := fun _ _ _ => inl "429 Too Many Requests" |}.

(** Only Groq can be constructed; operations raise until moment 3 and return
    ["R"] from then on. *)
Definition env_recovering : Env :=
  {| construct := fun _ class_path _ =>
       if bool_decide (class_path = "app.plugins.ai.groq_plugin.GroqProvider")
       then None else Some "HF_TOKEN not found in environment";
     operate := fun t _ _ =>
       if bool_decide (t < 3) then inl "429 Too Many Requests" else inr "R" |}.

Definition cfg_three : ProviderConfig :=
  {| provider := "groq"; fallback := FbList ["huggingface"; "openai_direct"] |}.

(** A wrapper straight out of [__init__], with the store it leaves. *)
Definition fresh (E : Env) (ai : ProviderConfig) : option (Wrapper * Store) :=
  match init E (mk_store ai) with
  | (s, _, Ok w) => Some (w, s)
  | _ => None
  end.

(** [generate_script] on a fresh wrapper: the value handed to the caller, the
    wrapper and the store after the call, and the events of the call. *)
Definition first_call (E : Env) (ai : ProviderConfig)
    : option (res string * Wrapper * Store * list event) :=
  match fresh E ai with
  | Some (w, s) =>
      let '(s', evs, (w', r)) := generate_script E w "content" s in
      Some (r, w', s', evs)
  | None => None
  end.

(** Two calls of [generate_script] in a row on a fresh wrapper: the outcome
    of the second, with the wrapper, the store and the events after it. *)
Definition second_call (E : Env) (ai : ProviderConfig)
    : option (res string * Wrapper * Store * list event) :=
  match first_call E ai with
  | Some (_, w, s, _) =>
      let '(s', evs, (w', r)) := generate_script E w "content" s in
      Some (r, w', s', evs)
  | None => None
  end.

(** ** The rest of [plugin_loader.py] *)

(** [load_specific] imports the class before it reads the settings, so the
    two steps that [construct] takes together are told apart here:
    [import_class t class_path] is the outcome of [import_module] and
    [getattr], [instantiate t class_path cfg] that of calling the class. *)
Record World : Type := {
  import_class : nat -> string -> option string;
  instantiate : nat -> string -> ProviderConfig -> option string;
  invoke : nat -> Instance -> string -> string + string
}.

(** The world as [load] and the wrapper see it. *)
Definition env_of (W : World) : Env :=
  {| construct := fun t class_path cfg =>
       match import_class W t class_path with
       | Some msg => Some msg
       | None => instantiate W t class_path cfg
       end;
     operate := invoke W |}.

(** [PluginLoader.load_specific(plugin_type, provider_name)]: no [try], no
    logging, no cache. *)
Definition load_specific (W : World) (plugin_type provider_name : string)
    : M (res Instance) :=
  match dict_get plugin_type PLUGIN_REGISTRY with
  | None => ret (Raise (ValueError ("Unknown plugin type: " ++ plugin_type)%string))
  | Some providers =>
      match dict_get provider_name providers with
      | None => ret (Raise (ValueError ("Unknown provider: " ++ provider_name)%string))
      | Some class_path =>
          do t <- next_tick;
          match import_class W t class_path with
          | Some msg =>
              run emit (EvConstructFailed plugin_type provider_name msg);
              ret (Raise (ProviderRaised msg))
          | None =>
              do s <- get;
              match settings s !! plugin_type with
              | None => ret (Raise (AttributeError plugin_type))
              | Some config =>
                  match instantiate W t class_path config with
                  | Some msg =>
                      run emit (EvConstructFailed plugin_type provider_name msg);
                      ret (Raise (ProviderRaised msg))
                  | None =>
                      let plugin_instance :=
                        {| inst_class := class_path; inst_id := t |} in
                      run emit (EvConstructed plugin_type provider_name plugin_instance);
                      ret (Ok plugin_instance)
                  end
              end
          end
      end
  end.

(** [PluginLoader.get_available_providers(plugin_type)]:
    [list(PLUGIN_REGISTRY.get(plugin_type, {}).keys())]. *)
Definition get_available_providers (plugin_type : string) : list string :=
  match dict_get plugin_type PLUGIN_REGISTRY with
  | None => []
  | Some providers => providers.*1
  end.

(** ** The rest of [ai_fallback.py] *)

(** The property [current_provider_name]: [self._current_provider_name or
    "none"]; the empty string is falsy. *)
Definition current_provider_name (w : Wrapper) : string :=
  match _current_provider_name w with
  | Some n => if bool_decide (n = "") then "none" else n
  | None => "none"
  end.

(** [get_ai_provider()]: the module global [_ai_with_fallback] goes in and
    comes out. *)
Definition get_ai_provider (E : Env) (_ai_with_fallback : option Wrapper)
    : M (option Wrapper * res Wrapper) :=
  match _ai_with_fallback with
  | Some w => ret (Some w, Ok w)
  | None =>
      do r <- init E;
      match r with
      | Ok w => ret (Some w, Ok w)
      | Raise e => ret (None, Raise e)
      end
  end.

(** [reset_ai_provider()]. *)
Definition reset_ai_provider (_ai_with_fallback : option Wrapper) : option Wrapper :=
  None.

(** [test_full_pipeline.py], lines 70-72: [get_ai_provider()] and then
    [generate_script] on what it returned; the global refers to the wrapper
    object, so it sees what the call did to it. *)
Definition pipeline_script (E : Env) (_ai_with_fallback : option Wrapper)
    (content : string) : M (option Wrapper * res string) :=
  do '(g, r) <- get_ai_provider E _ai_with_fallback;
  match r with
  | Raise e => ret (g, Raise e)
  | Ok w =>
      do '(w', out) <- generate_script E w content;
      ret (Some w', out)
  end.

(** ** [config.py] *)

(** The file system and the parser are outside: [read_config path] is
    [None] when the file does not exist, and otherwise the outcome of
    reading it, parsing it and validating it; [make_default] is the outcome
    of [Settings()]. *)
Record FileSystem : Type := {
  read_config : string -> option (res (gmap string ProviderConfig));
  make_default : res (gmap string ProviderConfig)
}.

Inductive fs_event : Type :=
| FsExists (path : string)
| FsOpen (path : string).

(** [load_config(config_path)]; the global [_settings] goes in and comes
    out.  It is assigned only after the settings were built. *)
Definition load_config (F : FileSystem) (config_path : string)
    (_settings : option (gmap string ProviderConfig))
    : option (gmap string ProviderConfig) * list fs_event
      * res (gmap string ProviderConfig) :=
  match read_config F config_path with
  | None =>
      match make_default F with
      | Ok st => (Some st, [FsExists config_path], Ok st)
      | Raise e => (_settings, [FsExists config_path], Raise e)
      end
  | Some (Ok st) => (Some st, [FsExists config_path; FsOpen config_path], Ok st)
  | Some (Raise e) => (_settings, [FsExists config_path; FsOpen config_path], Raise e)
  end.

(** [get_settings()]. *)
Definition get_settings (F : FileSystem)
    (_settings : option (gmap string ProviderConfig))
    : option (gmap string ProviderConfig) * list fs_event
      * res (gmap string ProviderConfig) :=
  match _settings with
  | None => load_config F "config.yaml" None
  | Some st => (Some st, [], Ok st)
  end.

(** [reload_config()]. *)
Definition reload_config (F : FileSystem)
    (_settings : option (gmap string ProviderConfig))
    : option (gmap string ProviderConfig) * list fs_event
      * res (gmap string ProviderConfig) :=
  load_config F "config.yaml" None.

(** The defaults that the configuration classes declare for [provider] and
    [fallback], by attribute of [Settings]. *)
Definition declared_defaults : list (string * ProviderConfig) :=
  [ ("content", {| provider := "reddit"; fallback := FbStr "quotes" |});
    ("ai", {| provider := "langchain"; fallback := FbList [] |});
    ("tts", {| provider := "gtts"; fallback := FbAbsent |});
    ("video", {| provider := "moviepy"; fallback := FbAbsent |});
    ("upload", {| provider := "youtube"; fallback := FbAbsent |});
    ("database", {| provider := "sqlite"; fallback := FbAbsent |}) ].

(** ** More concrete worlds *)

(** Every cached object is older than the present moment. *)
Definition ids_fresh (s : Store) : Prop :=
  forall c i, cache s !! c = Some i -> inst_id i < tick s.

(** Every import and every constructor returns. *)
Definition world_ok : World :=
  {| import_class := fun _ _ => None;
     instantiate := fun _ _ _ => None;
     invoke := fun _ _ _ => inr "R" |}.

(** The package of Groq is not installed. *)
Definition world_no_groq : World :=
  {| import_class := fun _ class_path =>
       if bool_decide (class_path = "app.plugins.ai.groq_plugin.GroqProvider")
       then Some "No module named 'groq'" else None;
     instantiate := fun _ _ _ => None;
     invoke := fun _ _ _ => inr "R" |}.

(** [config.yaml] is missing, [other.yaml] names Groq for ["ai"]. *)
Definition fs_other : FileSystem :=
  {| read_config := fun path =>
       if bool_decide (path = "other.yaml") then Some (Ok {[ "ai" := cfg_groq_hf ]})
       else None;
     make_default := Ok (list_to_map declared_defaults) |}.

(** [config.yaml] exists and cannot be parsed. *)
Definition fs_broken : FileSystem :=
  {| read_config := fun path =>
       if bool_decide (path = "config.yaml")
       then Some (Raise (ProviderRaised "mapping values are not allowed here"))
       else None;
     make_default := Ok (list_to_map declared_defaults) |}.

(** The store after a first call that Groq's quota made fall back to
    HuggingFace, and the wrapper it left. *)
Definition hf_instance : Instance :=
  {| inst_class := "app.plugins.ai.huggingface_plugin.HuggingFaceProvider"; inst_id := 2 |}.

Definition w_after_fallback : Wrapper :=
  set_current w_groq (Some hf_instance) (Some "huggingface").

Definition s_after_fallback : Store :=
  {| cache := {[ "ai" := hf_instance ]};
     settings := {[ "ai" := cfg_groq_hf ]};
     tick := 4 |}.

(** A configuration whose names are all unknown to the registry. *)
Definition cfg_unknown_names : ProviderConfig :=
  {| provider := "openai"; fallback := FbList ["gemini"] |}.

(** * Theorems *)

(** ** Strings *)

Lemma append_cons (c : ascii) (a b : string) :
  (String c a ++ b)%string = String c (a ++ b)%string.
Proof. reflexivity. Qed.

Lemma append_empty (b : string) : ("" ++ b)%string = b.
Proof. reflexivity. Qed.

Lemma prefix_spec (n h : string) :
  String.prefix n h = true <-> exists b, h = (n ++ b)%string.
Proof.
  revert h. induction n as [|c n IH]; intros h.
  - destruct h; simpl; split; eauto.
  - destruct h as [|d h]; simpl.
    + split; [discriminate | intros [b Hb]; discriminate].
    + destruct (Ascii.ascii_dec c d) as [->|Hne].
      * rewrite IH.
        split; intros [b Hb]; exists b; rewrite append_cons in *; congruence.
      * split; [discriminate | intros [b Hb]; rewrite append_cons in Hb; congruence].
Qed.

Lemma contains_spec (n h : string) :
  contains n h = true <-> exists a b, h = (a ++ n ++ b)%string.
Proof.
  induction h as [|d h IH]; cbn [contains].
  - rewrite orb_false_r, prefix_spec. split.
    + intros [b Hb]. by exists "", b.
    + intros [a [b Hb]]. destruct a; [by exists b | discriminate].
  - rewrite orb_true_iff, prefix_spec, IH. split.
    + intros [[b Hb] | [a [b Hb]]].
      * by exists "", b.
      * exists (String d a), b. rewrite append_cons. by rewrite Hb.
    + intros [a [b Hb]]. destruct a as [|e a].
      * left. by exists b.
      * right. exists a, b. rewrite append_cons in Hb. congruence.
Qed.

(** ** The resolution chain *)

Lemma build_providers_to_try_eq (cfg : ProviderConfig) :
  build_providers_to_try cfg =
  provider cfg :: filter (fun x => x <> provider cfg) (fallback_names (fallback cfg)).
Proof.
  unfold build_providers_to_try. destruct cfg as [p [|l|s]]; simpl; try done.
  destruct s as [|c s]; [done|].
  cbn [fallback_names]. rewrite filter_cons, filter_nil.
  rewrite bool_decide_true by done.
  destruct (decide (String c s <> p)).
  - by rewrite bool_decide_true.
  - by rewrite bool_decide_false.
Qed.

Lemma init_providers_to_try_eq (cfg : ProviderConfig) :
  init_providers_to_try (provider cfg) (fallback cfg) = build_providers_to_try cfg.
Proof. by destruct cfg as [p [|l|s]]. Qed.

(** C1, as the code has it: the chain of [load], and that of the wrapper, is
    the primary followed by the fallback names other than the primary, in
    their order and as often as the configuration repeats them (a scalar
    counts as a list of one name; an absent field, an empty list and the
    empty string give the primary alone).  Removing the repeats, first
    occurrences kept, gives the chain of the specification. *)
Theorem chain_keeps_fallback_order (cfg : ProviderConfig) :
  build_providers_to_try cfg =
    provider cfg :: filter (fun x => x <> provider cfg) (fallback_names (fallback cfg))
  /\ init_providers_to_try (provider cfg) (fallback cfg) = build_providers_to_try cfg
  /\ spec_chain (provider cfg) (fallback cfg) =
       provider cfg :: dedup_first (tail (build_providers_to_try cfg))
  /\ build_providers_to_try {| provider := provider cfg; fallback := FbAbsent |} = [provider cfg]
  /\ build_providers_to_try {| provider := provider cfg; fallback := FbList [] |} = [provider cfg]
  /\ build_providers_to_try {| provider := provider cfg; fallback := FbStr "" |} = [provider cfg].
Proof.
  split; [apply build_providers_to_try_eq|].
  split; [apply init_providers_to_try_eq|].
  split; [by rewrite build_providers_to_try_eq|].
  done.
Qed.

(** C1 as stated fails when the fallback list repeats a name: both
    occurrences stay in the chain. *)
Lemma chain_not_deduplicated :
  build_providers_to_try cfg_repeated = ["groq"; "huggingface"; "huggingface"]
  /\ spec_chain (provider cfg_repeated) (fallback cfg_repeated) = ["groq"; "huggingface"]
  /\ build_providers_to_try cfg_repeated
     <> spec_chain (provider cfg_repeated) (fallback cfg_repeated).
Proof. split; [|split]; [reflexivity | reflexivity | discriminate]. Qed.

(** ** One candidate of [load] *)

(** The four ways a turn of the loop of [load] can go. *)
Lemma load_candidate_cases (E : Env) (pt : string) (cfg : ProviderConfig)
    (prim name : string) (le : option exn) (s : Store) :
  let out := load_candidate E pt cfg prim name le s in
  (dict_get pt PLUGIN_REGISTRY = None /\
   out = (s, [EvAttempt pt name;
              EvLoadWarning pt name ("Unknown plugin type: " ++ pt)%string],
          inr (Some (ValueError ("Unknown plugin type: " ++ pt)%string))))
  \/ (dict_get pt PLUGIN_REGISTRY <> None /\ registered pt name = None /\
      out = (s, [EvAttempt pt name; EvUnknownProvider pt name], inr le))
  \/ (exists class_path msg,
        registered pt name = Some class_path /\
        construct E (tick s) class_path cfg = Some msg /\
        out = ({| cache := cache s; settings := settings s; tick := S (tick s) |},
               [EvAttempt pt name; EvImporting class_path;
                EvConstructFailed pt name msg; EvLoadWarning pt name msg],
               inr (Some (ProviderRaised msg))))
  \/ (exists class_path,
        registered pt name = Some class_path /\
        construct E (tick s) class_path cfg = None /\
        let i := {| inst_class := class_path; inst_id := tick s |} in
        out = ({| cache := <[pt := i]> (cache s); settings := settings s;
                  tick := S (tick s) |},
               [EvAttempt pt name; EvImporting class_path;
                EvConstructed pt name i; EvProviderInfo pt name;
                EvLoaded pt name (bool_decide (name <> prim))],
               inl i)).
Proof.
  unfold load_candidate, registered.
  destruct (dict_get pt PLUGIN_REGISTRY) as [providers|]; [|left; done].
  right. destruct (dict_get name providers) as [class_path|].
  - right. unfold bind, emit, next_tick, get, set_cache, ret. cbn -[PLUGIN_REGISTRY].
    destruct (construct E (tick s) class_path cfg) as [msg|] eqn:Hc.
    + left. exists class_path, msg. done.
    + right. exists class_path. done.
  - left. done.
Qed.

Lemma load_loop_cons (E : Env) (pt : string) (cfg : ProviderConfig)
    (prim name : string) (rest : list string) (le : option exn) (s : Store) :
  load_loop E pt cfg prim (name :: rest) le s =
  match load_candidate E pt cfg prim name le s with
  | (s1, ev1, inl i) => (s1, ev1, inl i)
  | (s1, ev1, inr le') =>
      let '(s2, ev2, r) := load_loop E pt cfg prim rest le' s1 in
      (s2, ev1 ++ ev2, r)
  end.
Proof.
  cbn [load_loop]. unfold bind at 1.
  destruct (load_candidate E pt cfg prim name le s) as [[s1 ev1] [i|le']].
  - unfold ret. by rewrite app_nil_r.
  - done.
Qed.

(** What a run of the loop of [load] leaves behind.  [inl]: the loop stopped
    at the first candidate whose constructor returned, and cached exactly
    that object.  [inr]: every candidate was announced, none was cached. *)
Lemma load_loop_spec (E : Env) (pt : string) (cfg : ProviderConfig) (prim : string)
    (providers : list string) :
  forall (le : option exn) (s s' : Store) (evs : list event) r,
  load_loop E pt cfg prim providers le s = (s', evs, r) ->
  settings s' = settings s /\ tick s <= tick s' /\
  invoked evs = [] /\ raised evs = [] /\
  match r with
  | inl i =>
      exists pre name post,
        providers = pre ++ name :: post /\
        attempted evs = pre ++ [name] /\
        registered pt name = Some (inst_class i) /\
        construct E (inst_id i) (inst_class i) cfg = None /\
        tick s <= inst_id i < tick s' /\
        cache s' = <[pt := i]> (cache s) /\
        constructed evs = [i]
  | inr le' =>
      attempted evs = providers /\
      cache s' = cache s /\
      constructed evs = [] /\
      exn_str <$> le' = match last (load_warnings evs) with
                        | Some m => Some m
                        | None => exn_str <$> le
                        end
  end.
Proof.
  induction providers as [|name rest IH]; intros le s s' evs r Hrun.
  - cbn in Hrun. injection Hrun as <- <- <-. repeat split; auto.
  - rewrite load_loop_cons in Hrun.
    pose proof (load_candidate_cases E pt cfg prim name le s) as Hc.
    cbv zeta in Hc.
    destruct Hc as [[Hreg Hout] | [(Hreg & Hnone & Hout) |
      [(cp & msg & Hcp & Hcons & Hout) | (cp & Hcp & Hcons & Hout)]]];
      rewrite Hout in Hrun.
    + destruct (load_loop E pt cfg prim rest _ s) as [[s2 ev2] r2] eqn:Hrest.
      injection Hrun as <- <- <-.
      apply IH in Hrest as (Hset & Htick & Hinv & Hrai & Hr).
      repeat split; auto.
      destruct r2 as [i|le2].
      * destruct Hr as (pre & n & post & -> & Hatt & Hrest).
        exists (name :: pre), n, post. split; [done|].
        split; [cbn; by rewrite <- Hatt|]. exact Hrest.
      * destruct Hr as (Hatt & Hcache & Hcon & Hle).
        split; [cbn; by rewrite <- Hatt|]. repeat split; auto.
        rewrite Hle. unfold load_warnings. cbn. fold (load_warnings ev2).
        rewrite last_cons. by destruct (last (load_warnings ev2)).
    + destruct (load_loop E pt cfg prim rest _ s) as [[s2 ev2] r2] eqn:Hrest.
      injection Hrun as <- <- <-.
      apply IH in Hrest as (Hset & Htick & Hinv & Hrai & Hr).
      repeat split; auto.
      destruct r2 as [i|le2].
      * destruct Hr as (pre & n & post & -> & Hatt & Hrest).
        exists (name :: pre), n, post. split; [done|].
        split; [cbn; by rewrite <- Hatt|]. exact Hrest.
      * destruct Hr as (Hatt & Hcache & Hcon & Hle).
        split; [cbn; by rewrite <- Hatt|]. repeat split; auto.
    + destruct (load_loop E pt cfg prim rest _ _) as [[s2 ev2] r2] eqn:Hrest.
      injection Hrun as <- <- <-.
      apply IH in Hrest as (Hset & Htick & Hinv & Hrai & Hr).
      cbn in Hset, Htick.
      repeat split; auto; [lia|].
      destruct r2 as [i|le2].
      * destruct Hr as (pre & n & post & -> & Hatt & Hreg & Hok & Hid & Hcache & Hcon).
        exists (name :: pre), n, post. split; [done|].
        split; [cbn; by rewrite <- Hatt|].
        cbn in Hid, Hcache. repeat split; auto; lia.
      * destruct Hr as (Hatt & Hcache & Hcon & Hle).
        split; [cbn; by rewrite <- Hatt|]. repeat split; auto.
        rewrite Hle. unfold load_warnings. cbn. fold (load_warnings ev2).
        rewrite last_cons. by destruct (last (load_warnings ev2)).
    + cbv zeta in Hrun. injection Hrun as <- <- <-.
      cbn. repeat split; auto.
      exists [], name, rest. repeat split; auto.
Qed.

(** ** [load] as a whole *)

Lemma load_unfold (E : Env) (pt : string) (fr : bool) (s : Store) :
  load E pt fr s =
  match cache s !! pt, fr with
  | Some cached, false => (s, [EvCacheHit pt], Ok cached)
  | _, _ => load_fresh E pt s
  end.
Proof.
  unfold load. unfold bind at 1. unfold get at 1.
  destruct (cache s !! pt) as [cached|], fr; cbv beta iota;
    by destruct (load_fresh E pt s) as [[s1 ev1] r1].
Qed.

Lemma load_fresh_unfold (E : Env) (pt : string) (s : Store) :
  load_fresh E pt s =
  match settings s !! pt with
  | None => (s, [EvLoading pt], Raise (AttributeError pt))
  | Some cfg =>
      let chain := build_providers_to_try cfg in
      match load_loop E pt cfg (provider cfg) chain None s with
      | (s', evs, inl i) => (s', EvLoading pt :: evs, Ok i)
      | (s', evs, inr last_error) =>
          (s', EvLoading pt :: evs ++ [EvLoadError pt chain (exn_str <$> last_error)],
           Raise (RuntimeError (LoadFailed pt chain (exn_str <$> last_error))))
      end
  end.
Proof.
  unfold load_fresh, bind, emit, get, ret. cbv beta iota zeta.
  destruct (settings s !! pt) as [cfg|]; [|done].
  destruct (load_loop E pt cfg (provider cfg) (build_providers_to_try cfg) None s)
    as [[s1 ev1] [i|le]]; cbv beta iota zeta; by rewrite ?app_nil_r.
Qed.

Lemma load_fresh_spec (E : Env) (pt : string) (s s' : Store) (evs : list event)
    (r : res Instance) :
  load_fresh E pt s = (s', evs, r) ->
  settings s' = settings s /\ tick s <= tick s' /\
  invoked evs = [] /\ raised evs = [] /\
  match r with
  | Ok i =>
      exists cfg pre name post,
        settings s !! pt = Some cfg /\
        build_providers_to_try cfg = pre ++ name :: post /\
        attempted evs = pre ++ [name] /\
        registered pt name = Some (inst_class i) /\
        construct E (inst_id i) (inst_class i) cfg = None /\
        tick s <= inst_id i < tick s' /\
        cache s' = <[pt := i]> (cache s) /\
        constructed evs = [i]
  | Raise e =>
      cache s' = cache s /\ constructed evs = [] /\
      ((settings s !! pt = None /\ e = AttributeError pt /\ s' = s /\
        evs = [EvLoading pt])
       \/ exists cfg,
            settings s !! pt = Some cfg /\
            e = RuntimeError (LoadFailed pt (build_providers_to_try cfg)
                                (last (load_warnings evs))) /\
            attempted evs = build_providers_to_try cfg)
  end.
Proof.
  rewrite load_fresh_unfold. cbv zeta. intros Hrun.
  destruct (settings s !! pt) as [cfg|] eqn:Hcfg.
  - destruct (load_loop E pt cfg (provider cfg) (build_providers_to_try cfg) None s)
      as [[s1 ev1] [i|le]] eqn:Hloop;
      injection Hrun as <- <- <-;
      apply load_loop_spec in Hloop as (Hset & Htick & Hinv & Hrai & Hr).
    + repeat split; auto.
      destruct Hr as (pre & name & post & Hr). exists cfg, pre, name, post.
      split; [done|]. exact Hr.
    + destruct Hr as (Hatt & Hcache & Hcon & Hle).
      assert (Hlast : exn_str <$> le
                = last (load_warnings (EvLoading pt :: ev1 ++
                     [EvLoadError pt (build_providers_to_try cfg) (exn_str <$> le)]))).
      { rewrite Hle. unfold load_warnings. cbn [omap list_omap]. rewrite omap_app.
        cbn. rewrite app_nil_r. by destruct (last _). }
      rewrite <- Hlast.
      unfold invoked, raised, constructed, attempted in *.
      cbn. rewrite !omap_app, Hinv, Hrai, Hcon, Hatt. cbn.
      repeat split; auto. right. exists cfg.
      by rewrite app_nil_r.
  - injection Hrun as <- <- <-. repeat split; auto.
Qed.

Lemma load_cases (E : Env) (pt : string) (fr : bool) (s s' : Store)
    (evs : list event) (r : res Instance) :
  load E pt fr s = (s', evs, r) ->
  (fr = false /\ exists cached,
     cache s !! pt = Some cached /\ s' = s /\ evs = [EvCacheHit pt] /\ r = Ok cached)
  \/ ((fr = true \/ cache s !! pt = None) /\ load_fresh E pt s = (s', evs, r)).
Proof.
  rewrite load_unfold.
  destruct (cache s !! pt) as [cached|] eqn:Hc, fr; intros Hrun;
    [right; split; [by left|done] | | right; split; [by left|done]
    | right; split; [by right|done]].
  left. injection Hrun as <- <- <-. eauto 10.
Qed.

(** ** The cache check of [load] *)

(** C10: with [force_reload] false and an object cached for the capability,
    [load] returns that object and does nothing else: the store is the one it
    was given (no constructor was called, the cache and the settings are
    untouched), the only event is the cache hit, and the outcome is the same
    whatever the settings and the world are.  The configuration is read
    again, on the path past the cache check, once [force_reload] is set or
    the cache has been cleared. *)
Theorem load_cached (E : Env) (plugin_type : string) (s : Store) (cached : Instance) :
  cache s !! plugin_type = Some cached ->
  load E plugin_type false s = (s, [EvCacheHit plugin_type], Ok cached)
  /\ (forall (E' : Env) (settings' : gmap string ProviderConfig),
        let s' := {| cache := cache s; settings := settings'; tick := tick s |} in
        load E' plugin_type false s' = (s', [EvCacheHit plugin_type], Ok cached))
  /\ load E plugin_type true s = load_fresh E plugin_type s
  /\ (forall s0 evs u,
        clear_cache s = (s0, evs, u) ->
        cache s0 !! plugin_type = None /\
        load E plugin_type false s0 = load_fresh E plugin_type s0).
Proof.
  intros H. split; [|split; [|split]].
  - by rewrite load_unfold, H.
  - intros E' settings'. cbv zeta. rewrite load_unfold. cbn [cache]. by rewrite H.
  - by rewrite load_unfold, H.
  - intros s0 evs u Hrun. injection Hrun as <- <- <-. cbn [cache].
    split; [apply lookup_empty|]. rewrite load_unfold. cbn [cache].
    by rewrite lookup_empty.
Qed.

Lemma load_cached_witness :
  cache s_groq !! "ai" = Some groq_instance
  /\ load env_quota "ai" false
       {| cache := cache s_groq; settings := {[ "ai" := cfg_repeated ]};
          tick := tick s_groq |}
     = ({| cache := cache s_groq; settings := {[ "ai" := cfg_repeated ]};
           tick := tick s_groq |},
        [EvCacheHit "ai"], Ok groq_instance).
Proof.
  split; [reflexivity|].
  apply (proj1 (proj2 (load_cached env_ok "ai" s_groq groq_instance eq_refl))).
Defined.

(** What any call of [load] leaves behind: the settings are not written, no
    operation is invoked, a new cache entry is an object whose constructor
    returned during the call, and a failed call leaves the cache as it was. *)
Lemma load_frame (E : Env) (pt : string) (fr : bool) (s s' : Store)
    (evs : list event) (r : res Instance) :
  load E pt fr s = (s', evs, r) ->
  settings s' = settings s /\ tick s <= tick s' /\
  invoked evs = [] /\ raised evs = [] /\
  (forall c i, cache s' !! c = Some i -> cache s !! c = Some i \/ i ∈ constructed evs) /\
  match r with
  | Ok i => cache s' !! pt = Some i
  | Raise _ => cache s' = cache s /\ constructed evs = []
  end.
Proof.
  intros Hrun. apply load_cases in Hrun
    as [(_ & cached & Hc & -> & -> & ->) | (_ & Hrun)].
  - repeat split; auto.
  - apply load_fresh_spec in Hrun as (Hset & Htick & Hinv & Hrai & Hr).
    repeat split; auto.
    + intros c i Hi. destruct r as [j|e].
      * destruct Hr as (cfg & pre & name & post & _ & _ & _ & _ & _ & _ & Hcache & Hcon).
        rewrite Hcache in Hi. destruct (decide (pt = c)) as [->|Hne].
        -- rewrite lookup_insert_eq in Hi. injection Hi as ->.
           right. rewrite Hcon. set_solver.
        -- rewrite lookup_insert_ne in Hi by done. by left.
      * destruct Hr as (Hcache & _). rewrite Hcache in Hi. by left.
    + destruct r as [j|e].
      * destruct Hr as (cfg & pre & name & post & _ & _ & _ & _ & _ & _ & Hcache & _).
        rewrite Hcache. apply lookup_insert_eq.
      * destruct Hr as (Hcache & Hcon & _). done.
Qed.

(** ** The wrapper *)

Lemma _load_primary_unfold (E : Env) (w : Wrapper) (s : Store) :
  _load_primary E w s =
  match load E "ai" false s with
  | (s', evs, Ok p) =>
      (s', evs, set_current w (Some p) (Some (primary_provider_name w)))
  | (s', evs, Raise e) =>
      (s', evs ++ [EvPrimaryFailed e], set_current w None (_current_provider_name w))
  end.
Proof.
  unfold _load_primary. unfold bind at 1.
  destruct (load E "ai" false s) as [[s' evs] [p|e]];
    unfold bind, emit, ret; cbv beta iota; by rewrite ?app_nil_r.
Qed.

Lemma _load_fallback_unfold (E : Env) (w : Wrapper) (name : string) (s : Store) :
  _load_fallback E w name s =
  let s0 := {| cache := delete "ai" (cache s); settings := settings s; tick := tick s |} in
  match settings s !! "ai" with
  | None => (s0, [EvFallbackFailed name (AttributeError "ai")], (w, false))
  | Some ai =>
      match load E "ai" true
              {| cache := delete "ai" (cache s);
                 settings := <["ai" := with_provider name ai]> (settings s);
                 tick := tick s |} with
      | (s', evs, Ok p) =>
          ({| cache := cache s';
              settings := alter (with_provider (provider ai)) "ai" (settings s');
              tick := tick s' |},
           evs ++ [EvSwitched name],
           (set_current w (Some p) (Some name), true))
      | (s', evs, Raise e) =>
          (s', evs ++ [EvFallbackFailed name e], (w, false))
      end
  end.
Proof.
  unfold _load_fallback, bind, get, set_cache, set_settings, emit, ret.
  cbv beta iota zeta.
  destruct (settings s !! "ai") as [ai|]; [|done].
  cbv beta iota zeta. cbn [cache settings tick].
  destruct (load E "ai" true _) as [[s' evs] [p|e]]; cbv beta iota zeta;
    by rewrite ?app_nil_r.
Qed.

(** What loading a candidate in the wrapper leaves behind. *)
Lemma ensure_loaded_spec (E : Env) (w : Wrapper) (name : string) (s s1 : Store)
    (ev1 : list event) (w1 : Wrapper) (loaded : bool) :
  ensure_loaded E w name s = (s1, ev1, (w1, loaded)) ->
  tick s <= tick s1 /\ invoked ev1 = [] /\ raised ev1 = [] /\
  (forall c i, cache s1 !! c = Some i -> cache s !! c = Some i \/ i ∈ constructed ev1) /\
  primary_provider_name w1 = primary_provider_name w /\
  providers_to_try w1 = providers_to_try w /\
  (loaded = true -> forall p, _current_provider w1 = Some p ->
     _current_provider_name w1 = Some name).
Proof.
  unfold ensure_loaded.
  destruct (bool_decide (_current_provider_name w <> Some name)) eqn:Hcur.
  - destruct (bool_decide (name = primary_provider_name w)) eqn:Hprim.
    + apply bool_decide_eq_true in Hprim as ->.
      unfold bind. rewrite _load_primary_unfold.
      destruct (load E "ai" false s) as [[s' evs] [p|e]] eqn:Hload;
        apply load_frame in Hload as (_ & Htick & Hinv & Hrai & Hnew & _);
        unfold ret; intros Hrun; injection Hrun as <- <- <- <-.
      * rewrite app_nil_r. repeat split; auto.
      * unfold invoked, raised, constructed in *.
        rewrite !app_nil_r, !omap_app, Hinv, Hrai. cbn.
        repeat split; auto; try discriminate.
        rewrite app_nil_r. exact Hnew.
    + rewrite _load_fallback_unfold. cbv zeta.
      destruct (settings s !! "ai") as [ai|].
      * destruct (load E "ai" true _) as [[s' evs] [p|e]] eqn:Hload;
          apply load_frame in Hload as (_ & Htick & Hinv & Hrai & Hnew & _);
          cbn [cache tick] in Htick, Hnew;
          intros Hrun; injection Hrun as <- <- <- <-;
          unfold invoked, raised, constructed in *;
          rewrite !omap_app, ?Hinv, ?Hrai; cbn; rewrite ?app_nil_r;
          (repeat split; auto; try discriminate);
          intros c i Hi; apply Hnew in Hi as [Hi|Hi]; auto;
          apply lookup_delete_Some in Hi as [_ Hi]; auto.
      * intros Hrun; injection Hrun as <- <- <- <-. cbn.
        repeat split; auto; try discriminate.
        intros c i Hi. apply lookup_delete_Some in Hi as [_ Hi]; auto.
  - apply bool_decide_eq_false in Hcur. apply dec_stable in Hcur.
    intros Hrun; injection Hrun as <- <- <- <-. repeat split; auto.
Qed.

Lemma generate_loop_cons (E : Env) (q : string -> bool) (content name : string)
    (rest : list string) (w : Wrapper) (le : option exn) (tried : list string)
    (s : Store) :
  generate_loop E q content (name :: rest) w le tried s =
  let '(s1, ev1, (w1, loaded)) := ensure_loaded E w name s in
  if negb loaded then after ev1 (generate_loop E q content rest w1 le tried s1)
  else
    match _current_provider w1 with
    | None => after ev1 (generate_loop E q content rest w1 le tried s1)
    | Some p =>
        match operate E (tick s1) p content with
        | inr result =>
            (bump s1,
             ev1 ++ [EvGenerating name; EvInvoked name p None;
                     EvGenerated name (bool_decide (name <> primary_provider_name w1))],
             (w1, tried ++ [name], inl result))
        | inl msg =>
            after (ev1 ++ [EvGenerating name; EvInvoked name p (Some msg);
                           if q (lower msg) then EvQuota name else EvErrorWith name msg])
              (generate_loop E q content rest w1 (Some (ProviderRaised msg))
                 (tried ++ [name]) (bump s1))
        end
    end.
Proof.
  cbn [generate_loop]. unfold bind at 1.
  destruct (ensure_loaded E w name s) as [[s1 ev1] [w1 loaded]].
  destruct loaded; cbn [negb]; cbv beta iota; [|done].
  destruct (_current_provider w1) as [p|]; [|done].
  unfold bind, emit, next_tick, ret, after, bump. cbv beta iota zeta.
  cbn [tick].
  destruct (operate E (tick s1) p content) as [msg|result].
  - cbv beta iota zeta.
    destruct (generate_loop E q content rest w1 _ _ _) as [[s2 ev2] out].
    cbn [app]. by rewrite <- app_assoc.
  - done.
Qed.

Lemma invoked_app (a b : list event) : invoked (a ++ b) = invoked a ++ invoked b.
Proof. apply omap_app. Qed.

Lemma raised_app (a b : list event) : raised (a ++ b) = raised a ++ raised b.
Proof. apply omap_app. Qed.

Lemma constructed_app (a b : list event) :
  constructed (a ++ b) = constructed a ++ constructed b.
Proof. apply omap_app. Qed.

Lemma attempted_app (a b : list event) : attempted (a ++ b) = attempted a ++ attempted b.
Proof. apply omap_app. Qed.

(** What a run of the loop of [generate_script] leaves behind.  The names
    under which an operation was invoked are the names appended to
    [tried_providers]; they are picked from the chain in one pass.  [inl]:
    the loop stopped at the first candidate whose operation returned, and
    hands out what that operation returned.  [inr]: every operation that was
    invoked raised, and [last_error] is the last of them. *)
Lemma generate_loop_spec (E : Env) (q : string -> bool) (content : string)
    (providers : list string) :
  forall (w : Wrapper) (le : option exn) (tried : list string) (s s' : Store)
         (evs : list event) (w' : Wrapper) (tried' : list string) r,
  generate_loop E q content providers w le tried s = (s', evs, (w', tried', r)) ->
  tick s <= tick s' /\
  (forall c i, cache s' !! c = Some i -> cache s !! c = Some i \/ i ∈ constructed evs) /\
  tried' = tried ++ invoked evs /\
  primary_provider_name w' = primary_provider_name w /\
  providers_to_try w' = providers_to_try w /\
  match r with
  | inl result =>
      exists pre name post tr p,
        providers = pre ++ name :: post /\
        invoked evs = tr ++ [name] /\
        tr `sublist_of` pre /\
        length (raised evs) = length tr /\
        _current_provider_name w' = Some name /\
        _current_provider w' = Some p /\
        tick s < tick s' /\
        operate E (pred (tick s')) p content = inr result
  | inr le' =>
      invoked evs `sublist_of` providers /\
      length (raised evs) = length (invoked evs) /\
      le' = match last (raised evs) with
            | Some m => Some (ProviderRaised m)
            | None => le
            end
  end.
Proof.
  induction providers as [|name rest IH]; intros w le tried s s' evs w' tried' r Hrun.
  - cbn in Hrun. injection Hrun as <- <- <- <- <-.
    cbn. rewrite app_nil_r. repeat split; auto.
  - rewrite generate_loop_cons in Hrun.
    destruct (ensure_loaded E w name s) as [[s1 ev1] [w1 loaded]] eqn:Hload.
    apply ensure_loaded_spec in Hload
      as (Htick1 & Hinv1 & Hrai1 & Hnew1 & Hprim1 & Hchain1 & Hname1).
    assert (Hskip : forall le0,
      after ev1 (generate_loop E q content rest w1 le0 tried s1)
        = (s', evs, (w', tried', r)) ->
      (le0 = le) ->
      tick s <= tick s' /\
      (forall c i, cache s' !! c = Some i ->
         cache s !! c = Some i \/ i ∈ constructed evs) /\
      tried' = tried ++ invoked evs /\
      primary_provider_name w' = primary_provider_name w /\
      providers_to_try w' = providers_to_try w /\
      match r with
      | inl result =>
          exists pre name0 post tr p,
            name :: rest = pre ++ name0 :: post /\
            invoked evs = tr ++ [name0] /\
            tr `sublist_of` pre /\
            length (raised evs) = length tr /\
            _current_provider_name w' = Some name0 /\
            _current_provider w' = Some p /\
            tick s < tick s' /\
            operate E (pred (tick s')) p content = inr result
      | inr le' =>
          invoked evs `sublist_of` name :: rest /\
          length (raised evs) = length (invoked evs) /\
          le' = match last (raised evs) with
                | Some m => Some (ProviderRaised m)
                | None => le
                end
      end).
    { intros le0 Hafter ->. unfold after in Hafter.
      destruct (generate_loop E q content rest w1 le tried s1)
        as [[s2 ev2] [[w2 tried2] r2]] eqn:Hrest.
      injection Hafter as <- <- <- <- <-.
      apply IH in Hrest as (Htick & Hnew & Htried & Hprim & Hchain & Hr).
      rewrite invoked_app, raised_app, Hinv1, Hrai1. cbn [app].
      split; [lia|]. split.
      { intros c i Hi. rewrite constructed_app, elem_of_app.
        apply Hnew in Hi as [Hi|Hi]; [|by auto].
        apply Hnew1 in Hi as [Hi|Hi]; auto. }
      split; [done|]. split; [congruence|]. split; [congruence|].
      destruct r2 as [result|le2].
      - destruct Hr as (pre & n & post & tr & p & -> & Hi & Hsub & Hlen & Hn & Hp & Ht & Hop).
        exists (name :: pre), n, post, tr, p.
        repeat split; auto; [by apply sublist_cons | lia].
      - destruct Hr as (Hsub & Hlen & Hle).
        repeat split; auto. by apply sublist_cons. }
    destruct loaded; cbn [negb] in Hrun; [|by eapply Hskip].
    destruct (_current_provider w1) as [p|] eqn:Hp; [|by eapply Hskip].
    specialize (Hname1 eq_refl p eq_refl). clear Hskip.
    destruct (operate E (tick s1) p content) as [msg|result] eqn:Hop.
    + unfold after in Hrun.
      destruct (generate_loop E q content rest w1 _ _ (bump s1))
        as [[s2 ev2] [[w2 tried2] r2]] eqn:Hrest.
      injection Hrun as <- <- <- <- <-.
      apply IH in Hrest as (Htick & Hnew & Htried & Hprim & Hchain & Hr).
      cbn [bump tick cache] in Htick, Hnew.
      assert (Hinv : invoked (ev1 ++ [EvGenerating name; EvInvoked name p (Some msg);
                 if q (lower msg) then EvQuota name else EvErrorWith name msg])
              = [name]).
      { rewrite invoked_app, Hinv1. by destruct (q (lower msg)). }
      assert (Hrai : raised (ev1 ++ [EvGenerating name; EvInvoked name p (Some msg);
                 if q (lower msg) then EvQuota name else EvErrorWith name msg])
              = [msg]).
      { rewrite raised_app, Hrai1. by destruct (q (lower msg)). }
      assert (Hcon : constructed (ev1 ++ [EvGenerating name; EvInvoked name p (Some msg);
                 if q (lower msg) then EvQuota name else EvErrorWith name msg])
              = constructed ev1).
      { rewrite constructed_app. destruct (q (lower msg)); cbn; by rewrite app_nil_r. }
      rewrite invoked_app, raised_app, Hinv, Hrai.
      split; [lia|]. split.
      { intros c i Hi. rewrite constructed_app, Hcon, elem_of_app.
        apply Hnew in Hi as [Hi|Hi]; [|by auto].
        apply Hnew1 in Hi as [Hi|Hi]; auto. }
      split; [by rewrite Htried, <- app_assoc|].
      split; [congruence|]. split; [congruence|].
      destruct r2 as [result|le2].
      * destruct Hr as (pre & n & post & tr & p2 & -> & Hi & Hsub & Hlen & Hn & Hp2 & Ht & Hop2).
        exists (name :: pre), n, post, (name :: tr), p2.
        rewrite Hi. cbn [app length].
        repeat split; auto; [by apply sublist_skip | lia].
      * destruct Hr as (Hsub & Hlen & Hle).
        cbn [app length]. repeat split; auto; [by apply sublist_skip|].
        rewrite last_cons. rewrite Hle. by destruct (last (raised ev2)).
    + injection Hrun as <- <- <- <- <-.
      rewrite invoked_app, raised_app, constructed_app, Hinv1, Hrai1.
      cbn [bump tick cache]. split; [lia|]. split.
      { intros c i Hi. apply Hnew1 in Hi as [Hi|Hi]; auto.
        right. apply elem_of_app. by left. }
      split; [done|]. split; [done|]. split; [done|].
      exists [], name, rest, [], p. cbn.
      repeat split; auto. lia.
Qed.

Lemma generate_script_unfold (E : Env) (w : Wrapper) (content : string) (s : Store) :
  generate_script E w content s =
  match generate_loop E is_quota_error content (providers_to_try w) w None [] s with
  | (s', evs, (w', _, inl result)) => (s', evs, (w', Ok result))
  | (s', evs, (w', tried, inr last_error)) =>
      (s', evs ++ [EvAllFailed tried (exn_str <$> last_error)],
       (w', Raise (RuntimeError (AllAIFailed tried (exn_str <$> last_error)))))
  end.
Proof.
  unfold generate_script. unfold bind at 1.
  destruct (generate_loop E is_quota_error content (providers_to_try w) w None [] s)
    as [[s' evs] [[w' tried] [result|le]]];
    unfold bind, emit, ret; cbv beta iota; by rewrite ?app_nil_r.
Qed.

(** ** What a successful call hands out *)




(** ** Exhausted chains *)




(** ** Success at the k-th candidate *)




(** ** One pass over the chain *)





(** ** A capability that the registry does not know *)





(** ** The classifier *)

Lemma is_quota_error_spec (m : string) :
  is_quota_error m = true <->
  exists k, k ∈ ["quota"; "rate limit"; "429"; "too many requests";
                 "resource_exhausted"; "exceeded"] /\
            exists a b, m = (a ++ k ++ b)%string.
Proof.
  unfold is_quota_error. rewrite existsb_exists. split.
  - intros (k & Hin & Hk). exists k. split; [by apply list_elem_of_In|].
    by apply contains_spec.
  - intros (k & Hin & Hk). exists k. split; [by apply list_elem_of_In|].
    by apply contains_spec.
Qed.

(** The test of the [except] branch decides which line is logged and nothing
    else: with any other test the loop ends in the same store, with the same
    wrapper, the same [tried_providers] and the same outcome, after invoking
    the same operations. *)
Lemma generate_loop_quota_irrelevant (E : Env) (q1 q2 : string -> bool)
    (content : string) (providers : list string) :
  forall (w : Wrapper) (le : option exn) (tried : list string) (s : Store),
  let x1 := generate_loop E q1 content providers w le tried s in
  let x2 := generate_loop E q2 content providers w le tried s in
  x1.1.1 = x2.1.1 /\ x1.2 = x2.2 /\
  invoked x1.1.2 = invoked x2.1.2 /\ raised x1.1.2 = raised x2.1.2.
Proof.
  induction providers as [|name rest IH]; intros w le tried s; [done|].
  cbv zeta. rewrite !generate_loop_cons.
  destruct (ensure_loaded E w name s) as [[s1 ev1] [w1 loaded]].
  assert (Hafter : forall ev le0 tried0 s0,
    let y1 := after ev (generate_loop E q1 content rest w1 le0 tried0 s0) in
    let y2 := after ev (generate_loop E q2 content rest w1 le0 tried0 s0) in
    y1.1.1 = y2.1.1 /\ y1.2 = y2.2 /\
    invoked y1.1.2 = invoked y2.1.2 /\ raised y1.1.2 = raised y2.1.2).
  { intros ev le0 tried0 s0. specialize (IH w1 le0 tried0 s0). cbv zeta in *.
    destruct (generate_loop E q1 content rest w1 le0 tried0 s0) as [[a1 b1] c1].
    destruct (generate_loop E q2 content rest w1 le0 tried0 s0) as [[a2 b2] c2].
    unfold after. cbn [fst snd] in *. destruct IH as (-> & -> & Hi & Hr).
    by rewrite !invoked_app, !raised_app, Hi, Hr. }
  destruct loaded; cbn [negb]; [|apply Hafter].
  destruct (_current_provider w1) as [p|]; [|apply Hafter].
  destruct (operate E (tick s1) p content) as [msg|result]; [|done].
  specialize (IH w1 (Some (ProviderRaised msg)) (tried ++ [name]) (bump s1)).
  cbv zeta in IH.
  destruct (generate_loop E q1 content rest w1 _ _ _) as [[a1 b1] c1].
  destruct (generate_loop E q2 content rest w1 _ _ _) as [[a2 b2] c2].
  unfold after. cbn [fst snd] in *. destruct IH as (-> & -> & Hi & Hr).
  rewrite !invoked_app, !raised_app, Hi, Hr.
  by destruct (q1 (lower msg)), (q2 (lower msg)).
Qed.

(** C6, as the code has it: the quota test is a total function of the
    message; it holds exactly when the lower-cased message contains one of
    the six substrings of the source ("quota", "rate limit", "429", "too many
    requests", "resource_exhausted", "exceeded"), so in particular for every
    message containing "quota", "rate limit" or "429" in any case; and it has
    no effect on the fallback: replacing it by any other test leaves the
    store, the wrapper, the attempts and the outcome of the loop the same. *)
Theorem quota_test_only_labels (msg : string) :
  (is_quota_error (lower msg) = true <->
   exists k, k ∈ ["quota"; "rate limit"; "429"; "too many requests";
                  "resource_exhausted"; "exceeded"] /\
             exists a b, lower msg = (a ++ k ++ b)%string)
  /\ (forall k, k ∈ ["quota"; "rate limit"; "429"] ->
        contains k (lower msg) = true -> is_quota_error (lower msg) = true)
  /\ (forall (E : Env) (q : string -> bool) (content : string)
             (providers : list string) (w : Wrapper) (le : option exn)
             (tried : list string) (s : Store),
        let x1 := generate_loop E is_quota_error content providers w le tried s in
        let x2 := generate_loop E q content providers w le tried s in
        x1.1.1 = x2.1.1 /\ x1.2 = x2.2 /\
        invoked x1.1.2 = invoked x2.1.2 /\ raised x1.1.2 = raised x2.1.2).
Proof.
  split; [apply is_quota_error_spec|]. split.
  - intros k Hk Hc. apply is_quota_error_spec. exists k. split.
    + rewrite !elem_of_cons in Hk. rewrite !elem_of_cons. tauto.
    + by apply contains_spec.
  - intros E q content providers w le tried s.
    apply generate_loop_quota_irrelevant.
Qed.

Lemma quota_test_only_labels_witness :
  is_quota_error (lower "Error 429: Rate Limit reached") = true.
Proof.
  apply (proj1 (proj2 (quota_test_only_labels "Error 429: Rate Limit reached")) "429").
  - do 2 right. left.
  - vm_compute. reflexivity.
Defined.

(** C6 as stated fails in both directions: a message with "resource
    exhausted" (a space, not an underscore) is not a quota error for the
    code, and a message with "too many requests", or "exceeded", is one
    though it holds none of the four substrings of the claim. *)
Lemma classifier_substrings_differ :
  spec_transient "Resource exhausted" = true
  /\ is_quota_error (lower "Resource exhausted") = false
  /\ spec_transient "Too Many Requests" = false
  /\ is_quota_error (lower "Too Many Requests") = true
  /\ spec_transient "Deadline exceeded" = false
  /\ is_quota_error (lower "Deadline exceeded") = true.
Proof. vm_compute. repeat split; reflexivity. Qed.

(** ** The cache invariant *)

Lemma cache_sound_step (h evs : list event) (s s' : Store) :
  cache_sound h s -> only_constructed_added s s' evs -> cache_sound (h ++ evs) s'.
Proof.
  intros Hs Hadd c i Hi. rewrite constructed_app, elem_of_app.
  apply Hadd in Hi as [Hi|Hi]; [left; by eapply Hs | by right].
Qed.

Lemma _load_primary_frame (E : Env) (w w' : Wrapper) (s s' : Store)
    (evs : list event) :
  _load_primary E w s = (s', evs, w') -> only_constructed_added s s' evs.
Proof.
  rewrite _load_primary_unfold.
  destruct (load E "ai" false s) as [[s1 ev1] [p|e]] eqn:Hload;
    apply load_frame in Hload as (_ & _ & _ & _ & Hnew & _);
    intros Hrun; injection Hrun as <- <- <-; [done|].
  intros c i Hi. rewrite constructed_app, elem_of_app.
  apply Hnew in Hi as [Hi|Hi]; auto.
Qed.

Lemma _load_fallback_frame (E : Env) (w : Wrapper) (name : string) (s s' : Store)
    (evs : list event) (out : Wrapper * bool) :
  _load_fallback E w name s = (s', evs, out) -> only_constructed_added s s' evs.
Proof.
  rewrite _load_fallback_unfold. cbv zeta.
  destruct (settings s !! "ai") as [ai|].
  - destruct (load E "ai" true _) as [[s1 ev1] [p|e]] eqn:Hload;
      apply load_frame in Hload as (_ & _ & _ & _ & Hnew & _);
      cbn [cache] in Hnew;
      intros Hrun; injection Hrun as <- <- <-;
      intros c i Hi; rewrite constructed_app, elem_of_app;
      apply Hnew in Hi as [Hi|Hi]; auto;
      apply lookup_delete_Some in Hi as [_ Hi]; auto.
  - intros Hrun; injection Hrun as <- <- <-.
    intros c i Hi. cbn [cache] in Hi. apply lookup_delete_Some in Hi as [_ Hi]; auto.
Qed.

Lemma generate_script_frame (E : Env) (w : Wrapper) (content : string)
    (s s' : Store) (evs : list event) (out : Wrapper * res string) :
  generate_script E w content s = (s', evs, out) -> only_constructed_added s s' evs.
Proof.
  rewrite generate_script_unfold.
  destruct (generate_loop E is_quota_error content (providers_to_try w) w None [] s)
    as [[s1 ev1] [[w1 tried] [result|le]]] eqn:Hloop;
    apply generate_loop_spec in Hloop as (_ & Hnew & _);
    intros Hrun; injection Hrun as <- <- <-; [done|].
  intros c i Hi. rewrite constructed_app, elem_of_app.
  apply Hnew in Hi as [Hi|Hi]; auto.
Qed.

Lemma init_frame (E : Env) (s s' : Store) (evs : list event) (r : res Wrapper) :
  init E s = (s', evs, r) -> only_constructed_added s s' evs.
Proof.
  unfold init. unfold bind at 1. unfold get at 1. cbv beta iota.
  destruct (settings s !! "ai") as [ai|].
  - unfold bind.
    destruct (_load_primary E _ s) as [[s1 ev1] w1] eqn:Hload.
    apply _load_primary_frame in Hload.
    unfold ret. intros Hrun; injection Hrun as <- <- <-.
    by rewrite !app_nil_r.
  - unfold ret. intros Hrun; injection Hrun as <- <- <-. intros c i Hi. by left.
Qed.

(** C7: the cache only ever holds objects whose constructor returned.  From
    a store whose cache is sound for the history [h], every operation of the
    loader and of the wrapper ends in a store whose cache is sound for the
    history extended by its own events.  [load] adds to the cache only an
    object constructed during the call; a turn of its loop that does not
    return (the constructor raised, or nothing was constructed) leaves the
    cache as it was, and a turn that returns has cached the object that the
    constructor just returned; a call of [load] that fails leaves the cache
    as it was. *)
Theorem cache_holds_only_constructed (E : Env) (h : list event) (s : Store) :
  cache_sound h s ->
  (forall pt fr s' evs r,
     load E pt fr s = (s', evs, r) ->
     cache_sound (h ++ evs) s' /\ only_constructed_added s s' evs /\
     (forall e, r = Raise e -> cache s' = cache s /\ constructed evs = []))
  /\ (forall pt cfg prim name le s' evs le',
        load_candidate E pt cfg prim name le s = (s', evs, inr le') ->
        cache s' = cache s /\ constructed evs = [])
  /\ (forall pt cfg prim name le s' evs i,
        load_candidate E pt cfg prim name le s = (s', evs, inl i) ->
        cache s' = <[pt := i]> (cache s) /\ constructed evs = [i] /\
        construct E (tick s) (inst_class i) cfg = None /\ inst_id i = tick s)
  /\ (forall s' evs u, clear_cache s = (s', evs, u) -> cache_sound (h ++ evs) s')
  /\ (forall w s' evs w',
        _load_primary E w s = (s', evs, w') -> cache_sound (h ++ evs) s')
  /\ (forall w name s' evs out,
        _load_fallback E w name s = (s', evs, out) -> cache_sound (h ++ evs) s')
  /\ (forall s' evs r, init E s = (s', evs, r) -> cache_sound (h ++ evs) s')
  /\ (forall w content s' evs out,
        generate_script E w content s = (s', evs, out) -> cache_sound (h ++ evs) s').
Proof.
  intros Hsound.
  assert (Hcand : forall pt cfg prim name le s' evs r,
    load_candidate E pt cfg prim name le s = (s', evs, r) ->
    match r with
    | inr _ => cache s' = cache s /\ constructed evs = []
    | inl i => cache s' = <[pt := i]> (cache s) /\ constructed evs = [i] /\
               construct E (tick s) (inst_class i) cfg = None /\ inst_id i = tick s
    end).
  { intros pt cfg prim name le s' evs r Hrun.
    pose proof (load_candidate_cases E pt cfg prim name le s) as Hc. cbv zeta in Hc.
    destruct Hc as [[_ Hout] | [(_ & _ & Hout) |
      [(cp & msg & _ & _ & Hout) | (cp & _ & Hcons & Hout)]]];
      rewrite Hout in Hrun; injection Hrun as <- <- <-; done. }
  split; [|split; [|split; [|split; [|split; [|split; [|split]]]]]].
  - intros pt fr s' evs r Hrun.
    apply load_frame in Hrun as (_ & _ & _ & _ & Hnew & Hr).
    split; [by eapply cache_sound_step|]. split; [exact Hnew|].
    intros e ->. exact Hr.
  - intros pt cfg prim name le s' evs le' Hrun. exact (Hcand _ _ _ _ _ _ _ _ Hrun).
  - intros pt cfg prim name le s' evs i Hrun. exact (Hcand _ _ _ _ _ _ _ _ Hrun).
  - intros s' evs u Hrun c i Hi. injection Hrun as <- <- <-. cbn in Hi.
    by rewrite lookup_empty in Hi.
  - intros w s' evs w' Hrun.
    eapply cache_sound_step; [done|]. by eapply _load_primary_frame.
  - intros w name s' evs out Hrun.
    eapply cache_sound_step; [done|]. by eapply _load_fallback_frame.
  - intros s' evs r Hrun.
    eapply cache_sound_step; [done|]. by eapply init_frame.
  - intros w content s' evs out Hrun.
    eapply cache_sound_step; [done|]. by eapply generate_script_frame.
Qed.

Lemma cache_holds_only_constructed_witness :
  cache_sound [EvConstructed "ai" "groq" groq_instance] s_groq
  /\ match load env_only_groq "ai" true s_groq with
     | (s', evs, _) =>
         cache_sound ([EvConstructed "ai" "groq" groq_instance] ++ evs) s'
     end
  /\ match generate_script env_groq_down w_groq "content" s_groq with
     | (s', evs, _) =>
         cache_sound ([EvConstructed "ai" "groq" groq_instance] ++ evs) s'
     end.
Proof.
  assert (H0 : cache_sound [EvConstructed "ai" "groq" groq_instance] s_groq).
  { intros c i Hi. cbn in Hi. apply lookup_singleton_Some in Hi as [_ <-].
    cbn. left. }
  split; [exact H0|].
  pose proof (cache_holds_only_constructed env_only_groq _ _ H0) as (Hload & _).
  pose proof (cache_holds_only_constructed env_groq_down _ _ H0)
    as (_ & _ & _ & _ & _ & _ & _ & Hgen).
  split.
  - destruct (load env_only_groq "ai" true s_groq) as [[s' evs] r] eqn:Hrun.
    by destruct (Hload _ _ _ _ _ Hrun) as (H1 & _).
  - destruct (generate_script env_groq_down w_groq "content" s_groq)
      as [[s' evs] out] eqn:Hrun.
    exact (Hgen _ _ _ _ _ Hrun).
Defined.

(** ** The primary succeeds *)

Lemma dec_stable_ne (a : string) : bool_decide (a <> a) = false.
Proof. apply bool_decide_eq_false. intros H. by apply H. Qed.

(** [load] past the cache check, when the constructor of the primary
    returns. *)
Lemma load_fresh_primary_ok (E : Env) (pt : string) (s : Store)
    (cfg : ProviderConfig) (class_path : string) :
  settings s !! pt = Some cfg ->
  registered pt (provider cfg) = Some class_path ->
  construct E (tick s) class_path cfg = None ->
  let i := {| inst_class := class_path; inst_id := tick s |} in
  load_fresh E pt s =
  ({| cache := <[pt := i]> (cache s); settings := settings s; tick := S (tick s) |},
   [EvLoading pt; EvAttempt pt (provider cfg); EvImporting class_path;
    EvConstructed pt (provider cfg) i; EvProviderInfo pt (provider cfg);
    EvLoaded pt (provider cfg) false],
   Ok i).
Proof.
  intros Hcfg Hreg Hcons i.
  rewrite load_fresh_unfold, Hcfg. cbv zeta.
  rewrite build_providers_to_try_eq, load_loop_cons.
  pose proof (load_candidate_cases E pt cfg (provider cfg) (provider cfg) None s) as Hc.
  cbv zeta in Hc.
  destruct Hc as [[Hno _] | [(_ & Hno & _) |
    [(cp & msg & Hcp & Hfail & _) | (cp & Hcp & _ & Hout)]]].
  - unfold registered in Hreg. by rewrite Hno in Hreg.
  - congruence.
  - congruence.
  - assert (cp = class_path) as -> by congruence.
    rewrite Hout. by rewrite dec_stable_ne.
Qed.





(** The wrapper that [__init__] builds with Groq as primary is [w_groq], in
    the store [s_groq]. *)
Example init_groq :
  fresh env_ok cfg_groq_hf = Some (w_groq, s_groq).
Proof. vm_compute. reflexivity. Qed.

(** ** Two behaviours worth recording *)

(** A name of the chain can be served by the object of another class: when
    the constructor of HuggingFace raises, [load] falls back by itself to the
    next provider of the settings and the wrapper records the object under
    the name it asked for.  Here OpenAI's operation is invoked twice in one
    call, under two names, though the chain has no repeated name. *)
Example fallback_name_served_by_other_class :
  match first_call env_hf_broken cfg_three with
  | Some (_, w, _, evs) =>
      providers_to_try w = ["groq"; "huggingface"; "openai_direct"] /\
      invoked evs = ["groq"; "huggingface"; "openai_direct"] /\
      invoked_classes evs =
        ["app.plugins.ai.groq_plugin.GroqProvider";
         "app.plugins.ai.openai_plugin.OpenAIProvider";
         "app.plugins.ai.openai_plugin.OpenAIProvider"]
  | None => False
  end.
Proof. vm_compute. repeat split; reflexivity. Qed.

(** A call that reuses the object the wrapper already holds constructs
    nothing and does not touch the cache: after a first call in which the
    fallback could not be loaded ([_load_fallback] had emptied the cache and
    left its provider name in the settings), a second call is served by the
    primary at once and the cache stays empty. *)
Example reused_primary_not_in_cache :
  match second_call env_recovering cfg_groq_hf with
  | Some (r, w, s, evs) =>
      r = Ok "R" /\ invoked evs = ["groq"] /\ constructed evs = [] /\
      _current_provider w = Some groq_instance /\
      cache s !! "ai" = None /\
      provider <$> settings s !! "ai" = Some "huggingface"
  | None => False
  end.
Proof. vm_compute. repeat split; reflexivity. Qed.

(** * Further properties of the loader *)

(** ** [load_specific] and [get_available_providers] *)

Lemma dict_get_None {V : Type} (k : string) (d : list (string * V)) :
  dict_get k d = None <-> k ∉ d.*1.
Proof.
  induction d as [|[k' v] d IH]; cbn.
  - split; [intros _; apply not_elem_of_nil | done].
  - rewrite not_elem_of_cons. destruct (bool_decide (k' = k)) eqn:Hk.
    + apply bool_decide_eq_true in Hk. split; [discriminate | intros [Hne _]; congruence].
    + apply bool_decide_eq_false in Hk. rewrite IH. split; [intros H; split; [congruence | done] | tauto].
Qed.

Lemma get_available_providers_registered (pt name : string) :
  name ∈ get_available_providers pt <-> is_Some (registered pt name).
Proof.
  unfold get_available_providers, registered.
  destruct (dict_get pt PLUGIN_REGISTRY) as [d|].
  - destruct (dict_get name d) as [cp|] eqn:Hget.
    + split; [eauto|]. intros _.
      destruct (decide (name ∈ d.*1)) as [Hin|Hout]; [done|].
      apply dict_get_None in Hout. congruence.
    + split.
      * intros Hin. apply dict_get_None in Hget. done.
      * intros [x Hx]. discriminate.
  - split; [intros Hin; by apply elem_of_nil in Hin | intros [x Hx]; discriminate].
Qed.

Lemma load_specific_unfold (W : World) (pt name : string) (s : Store) :
  load_specific W pt name s =
  match registered pt name with
  | None =>
      (s, [], Raise (ValueError
                (match dict_get pt PLUGIN_REGISTRY with
                 | None => "Unknown plugin type: " ++ pt
                 | Some _ => "Unknown provider: " ++ name
                 end)%string))
  | Some cp =>
      match import_class W (tick s) cp with
      | Some msg => (bump s, [EvConstructFailed pt name msg], Raise (ProviderRaised msg))
      | None =>
          match settings s !! pt with
          | None => (bump s, [], Raise (AttributeError pt))
          | Some cfg =>
              match instantiate W (tick s) cp cfg with
              | Some msg =>
                  (bump s, [EvConstructFailed pt name msg], Raise (ProviderRaised msg))
              | None =>
                  (bump s,
                   [EvConstructed pt name {| inst_class := cp; inst_id := tick s |}],
                   Ok {| inst_class := cp; inst_id := tick s |})
              end
          end
      end
  end.
Proof.
  unfold load_specific, registered.
  destruct (dict_get pt PLUGIN_REGISTRY) as [d|]; [|done].
  destruct (dict_get name d) as [cp|]; [|done].
  unfold bind, next_tick, get, emit, ret, bump. cbv beta iota zeta.
  destruct (import_class W (tick s) cp); [reflexivity|].
  cbv beta iota zeta. cbn [settings].
  destruct (settings s !! pt) as [cfg|]; [|reflexivity].
  destruct (instantiate W (tick s) cp cfg); reflexivity.
Qed.


(** X2: [load_specific] never reads or writes the cache and never writes the
    settings, whatever its outcome; what it returns is a new object of the
    class registered under the name, and a second call returns another
    one. *)
Theorem load_specific_never_caches (W : World) (pt name : string) (s s' : Store)
    (evs : list event) (r : res Instance) :
  load_specific W pt name s = (s', evs, r) ->
  cache s' = cache s /\ settings s' = settings s /\
  (forall c, load_specific W pt name
               {| cache := c; settings := settings s; tick := tick s |}
             = ({| cache := c; settings := settings s'; tick := tick s' |}, evs, r)) /\
  (forall i, r = Ok i ->
     registered pt name = Some (inst_class i) /\ inst_id i = tick s /\
     constructed evs = [i] /\
     forall s'' evs' j, load_specific W pt name s' = (s'', evs', Ok j) -> j <> i).
Proof.
  rewrite load_specific_unfold. intros Hrun.
  assert (Hindep : forall c,
    load_specific W pt name {| cache := c; settings := settings s; tick := tick s |}
    = ({| cache := c; settings := settings s'; tick := tick s' |}, evs, r)).
  { intros c. rewrite load_specific_unfold. cbn [settings tick]. revert Hrun.
    destruct (registered pt name) as [cp|].
    - destruct (import_class W (tick s) cp).
      + by intros Hrun; injection Hrun as <- <- <-.
      + destruct (settings s !! pt) as [cfg|].
        * destruct (instantiate W (tick s) cp cfg);
            by intros Hrun; injection Hrun as <- <- <-.
        * by intros Hrun; injection Hrun as <- <- <-.
    - intros Hrun; injection Hrun as <- <- <-. by destruct s. }
  destruct (registered pt name) as [cp|] eqn:Hreg.
  - assert (Hs : cache s' = cache s /\ settings s' = settings s /\ tick s' = S (tick s)).
    { revert Hrun. destruct (import_class W (tick s) cp).
      - by intros Hrun; injection Hrun as <- <- <-.
      - destruct (settings s !! pt) as [cfg|].
        + destruct (instantiate W (tick s) cp cfg);
            by intros Hrun; injection Hrun as <- <- <-.
        + by intros Hrun; injection Hrun as <- <- <-. }
    destruct Hs as (Hc & Hst & Ht).
    split; [done|]. split; [done|]. split; [exact Hindep|].
    intros i ->.
    assert (Hi : i = {| inst_class := cp; inst_id := tick s |}
                 /\ evs = [EvConstructed pt name i]).
    { revert Hrun. destruct (import_class W (tick s) cp); [discriminate|].
      destruct (settings s !! pt) as [cfg|]; [|discriminate].
      destruct (instantiate W (tick s) cp cfg); [discriminate|].
      intros Hrun; injection Hrun as <- <- <-. done. }
    destruct Hi as (-> & ->). cbn. repeat split; auto.
    intros s'' evs' j. rewrite load_specific_unfold, Hreg, Ht.
    destruct (import_class W (S (tick s)) cp); [discriminate|].
    destruct (settings s' !! pt) as [cfg'|]; [|discriminate].
    destruct (instantiate W (S (tick s)) cp cfg'); [discriminate|].
    intros Hrun2; injection Hrun2 as <- <- <-. intros Heq. injection Heq. lia.
  - injection Hrun as <- <- <-.
    split; [done|]. split; [done|]. split; [exact Hindep|]. discriminate.
Qed.

Lemma load_specific_never_caches_witness :
  cache (bump s_groq) = cache s_groq /\ settings (bump s_groq) = settings s_groq.
Proof.
  destruct (load_specific_never_caches world_ok "ai" "huggingface" s_groq (bump s_groq)
              [EvConstructed "ai" "huggingface"
                 {| inst_class := "app.plugins.ai.huggingface_plugin.HuggingFaceProvider";
                    inst_id := 1 |}]
              (Ok {| inst_class := "app.plugins.ai.huggingface_plugin.HuggingFaceProvider";
                     inst_id := 1 |}))
    as (Hc & Hs & _).
  - vm_compute. reflexivity.
  - split; assumption.
Defined.

(** X3: for the provider that the settings name, [load_specific] and a
    forced [load] construct the same object; [load] also caches it, and
    [load_specific] does not. *)
Theorem load_specific_agrees_with_forced_load (W : World) (pt : string)
    (cfg : ProviderConfig) (s s1 : Store) (ev1 : list event) (i : Instance) :
  settings s !! pt = Some cfg ->
  load_specific W pt (provider cfg) s = (s1, ev1, Ok i) ->
  exists s2 ev2,
    load (env_of W) pt true s = (s2, ev2, Ok i) /\
    constructed ev2 = constructed ev1 /\
    tick s2 = tick s1 /\
    cache s1 !! pt = cache s !! pt /\ cache s2 !! pt = Some i.
Proof.
  intros Hcfg. rewrite load_specific_unfold.
  destruct (registered pt (provider cfg)) as [cp|] eqn:Hreg; [|discriminate].
  destruct (import_class W (tick s) cp) eqn:Himp; [discriminate|].
  rewrite Hcfg.
  destruct (instantiate W (tick s) cp cfg) eqn:Hinst; [discriminate|].
  intros Hrun; injection Hrun as <- <- <-.
  assert (Hcons : construct (env_of W) (tick s) cp cfg = None).
  { cbn. by rewrite Himp. }
  rewrite load_unfold.
  assert (Hfresh : match cache s !! pt with
                   | Some _ | _ => load_fresh (env_of W) pt s
                   end = load_fresh (env_of W) pt s) by (by destruct (cache s !! pt)).
  rewrite Hfresh, (load_fresh_primary_ok (env_of W) pt s cfg cp Hcfg Hreg Hcons).
  eexists _, _. split; [reflexivity|]. cbn.
  repeat split; auto. apply lookup_insert_eq.
Qed.

Lemma load_specific_agrees_with_forced_load_witness :
  exists s2 ev2,
    load (env_of world_ok) "ai" true s_groq
      = (s2, ev2, Ok {| inst_class := "app.plugins.ai.groq_plugin.GroqProvider";
                        inst_id := 1 |}) /\
    constructed ev2
      = constructed [EvConstructed "ai" "groq"
                       {| inst_class := "app.plugins.ai.groq_plugin.GroqProvider";
                          inst_id := 1 |}] /\
    tick s2 = tick (bump s_groq) /\
    cache (bump s_groq) !! "ai" = cache s_groq !! "ai" /\
    cache s2 !! "ai" = Some {| inst_class := "app.plugins.ai.groq_plugin.GroqProvider";
                               inst_id := 1 |}.
Proof.
  apply (load_specific_agrees_with_forced_load world_ok "ai" cfg_groq_hf s_groq).
  - reflexivity.
  - vm_compute. reflexivity.
Defined.

(** X4: [get_available_providers] lists, without repetition, exactly the
    names for which the registry holds a class under the capability; for a
    capability that the registry does not hold it is the empty list. *)
Theorem available_providers_are_registered (pt : string) :
  NoDup (get_available_providers pt) /\
  (forall name, name ∈ get_available_providers pt <-> is_Some (registered pt name)) /\
  (dict_get pt PLUGIN_REGISTRY = None -> get_available_providers pt = []).
Proof.
  split; [|split].
  - unfold get_available_providers.
    destruct (dict_get pt PLUGIN_REGISTRY) as [d|] eqn:Hd; [|constructor].
    assert (Hin : d ∈ PLUGIN_REGISTRY.*2).
    { revert Hd. generalize PLUGIN_REGISTRY. intros reg.
      induction reg as [|[k v] reg IH]; cbn; [discriminate|].
      destruct (bool_decide (k = pt)).
      - intros Heq; injection Heq as ->. left.
      - intros Hd. right. by apply IH. }
    cbn in Hin.
    repeat (apply elem_of_cons in Hin as [-> | Hin];
            [cbn; repeat (apply NoDup_cons; split; [|]); try apply NoDup_nil;
             rewrite ?elem_of_cons, ?elem_of_nil; intuition discriminate |]).
    by apply elem_of_nil in Hin.
  - intros name. apply get_available_providers_registered.
  - unfold get_available_providers. by intros ->.
Qed.

(** ** [load] *)

(** X5: after a call of [load] that returned, a call without [force_reload]
    returns the same object and is a cache hit only, whatever has become of
    the settings and of the world in between. *)
Theorem load_then_load_hits_cache (E E' : Env) (pt : string) (fr : bool)
    (s s1 : Store) (ev1 : list event) (i : Instance)
    (settings' : gmap string ProviderConfig) :
  load E pt fr s = (s1, ev1, Ok i) ->
  let s1' := {| cache := cache s1; settings := settings'; tick := tick s1 |} in
  load E' pt false s1' = (s1', [EvCacheHit pt], Ok i).
Proof.
  intros Hrun s1'. apply load_frame in Hrun as (_ & _ & _ & _ & _ & Hc).
  rewrite load_unfold. subst s1'. cbn [cache]. by rewrite Hc.
Qed.

Lemma load_then_load_hits_cache_witness :
  load env_quota "ai" false
    {| cache := cache s_groq; settings := {[ "ai" := cfg_repeated ]}; tick := tick s_groq |}
  = ({| cache := cache s_groq; settings := {[ "ai" := cfg_repeated ]};
        tick := tick s_groq |},
     [EvCacheHit "ai"], Ok groq_instance).
Proof.
  apply (load_then_load_hits_cache env_ok env_quota "ai" false (mk_store cfg_groq_hf)
           s_groq
           [EvLoading "ai"; EvAttempt "ai" "groq";
            EvImporting "app.plugins.ai.groq_plugin.GroqProvider";
            EvConstructed "ai" "groq" groq_instance;
            EvProviderInfo "ai" "groq"; EvLoaded "ai" "groq" false]).
  vm_compute. reflexivity.
Defined.

(** X6: the objects in the cache are older than the present moment, and
    [load] keeps it so; with [force_reload] the object returned is none of
    the objects that were in the cache, and it replaces the one of the
    capability. *)
Theorem forced_load_constructs_anew (E : Env) (pt : string) (fr : bool)
    (s s' : Store) (evs : list event) (r : res Instance) :
  ids_fresh s ->
  load E pt fr s = (s', evs, r) ->
  ids_fresh s' /\
  (fr = true -> forall i, r = Ok i ->
     cache s' !! pt = Some i /\ constructed evs = [i] /\
     forall c j, cache s !! c = Some j -> j <> i).
Proof.
  intros Hfresh Hrun.
  apply load_cases in Hrun as [(-> & cached & Hc & -> & -> & ->) | (_ & Hrun)].
  - split; [done | discriminate].
  - apply load_fresh_spec in Hrun as (Hset & Htick & _ & _ & Hr).
    destruct r as [i|e].
    + destruct Hr as (cfg & pre & name & post & _ & _ & _ & _ & _ & Hid & Hcache & Hcon).
      split.
      * intros c j Hj. rewrite Hcache in Hj.
        destruct (decide (pt = c)) as [->|Hne].
        -- rewrite lookup_insert_eq in Hj. injection Hj as <-. lia.
        -- rewrite lookup_insert_ne in Hj by done. apply Hfresh in Hj. lia.
      * intros _ i' Heq. injection Heq as <-.
        split; [rewrite Hcache; apply lookup_insert_eq|]. split; [done|].
        intros c j Hj ->. apply Hfresh in Hj. lia.
    + destruct Hr as (Hcache & _). split; [|discriminate].
      intros c j Hj. rewrite Hcache in Hj. apply Hfresh in Hj. lia.
Qed.

Lemma forced_load_constructs_anew_witness :
  ids_fresh s_groq
  /\ match load env_ok "ai" true s_groq with
     | (s', evs, r) =>
         ids_fresh s' /\
         (true = true -> forall i, r = Ok i ->
            cache s' !! "ai" = Some i /\ constructed evs = [i] /\
            forall c j, cache s_groq !! c = Some j -> j <> i)
     end.
Proof.
  assert (H0 : ids_fresh s_groq).
  { intros c i Hi. cbn in Hi. apply lookup_singleton_Some in Hi as [_ <-]. cbn. lia. }
  split; [exact H0|].
  destruct (load env_ok "ai" true s_groq) as [[s' evs] r] eqn:Hrun.
  exact (forced_load_constructs_anew env_ok "ai" true s_groq s' evs r H0 Hrun).
Defined.

Lemma load_loop_unknown_names (E : Env) (pt : string) (cfg : ProviderConfig)
    (prim : string) (providers : list string) (le : option exn) (s : Store) :
  dict_get pt PLUGIN_REGISTRY <> None ->
  (forall n, n ∈ providers -> registered pt n = None) ->
  load_loop E pt cfg prim providers le s =
  (s, providers ≫= (fun n => [EvAttempt pt n; EvUnknownProvider pt n]), inr le).
Proof.
  intros Hreg. induction providers as [|name rest IH]; intros Hall; [done|].
  rewrite load_loop_cons.
  pose proof (load_candidate_cases E pt cfg prim name le s) as Hc. cbv zeta in Hc.
  assert (Hname : registered pt name = None) by (apply Hall; left).
  destruct Hc as [[Hno _] | [(_ & _ & Hout) | [(cp & msg & Hcp & _) | (cp & Hcp & _)]]];
    [congruence | | congruence | congruence].
  rewrite Hout, IH; [done|]. intros n Hn. apply Hall. by right.
Qed.

(** X7: when the registry holds the capability but none of the names of the
    chain, [load] announces every candidate, calls no constructor, leaves the
    store as it was and raises the [RuntimeError] with no last error at all
    ("Last error: None"): an unknown name is skipped without an exception
    being recorded. *)
Theorem load_all_names_unknown (E : Env) (pt : string) (fr : bool) (s : Store)
    (cfg : ProviderConfig) :
  dict_get pt PLUGIN_REGISTRY <> None ->
  settings s !! pt = Some cfg ->
  (forall n, n ∈ build_providers_to_try cfg -> registered pt n = None) ->
  fr = true \/ cache s !! pt = None ->
  exists evs,
    load E pt fr s
      = (s, evs, Raise (RuntimeError (LoadFailed pt (build_providers_to_try cfg) None))) /\
    attempted evs = build_providers_to_try cfg /\
    constructed evs = [] /\ construct_failures evs = [] /\ load_warnings evs = [].
Proof.
  intros Hreg Hcfg Hall Hmiss.
  assert (Hfresh : load E pt fr s = load_fresh E pt s).
  { rewrite load_unfold.
    destruct Hmiss as [-> | Hnone]; [by destruct (cache s !! pt) | by rewrite Hnone]. }
  rewrite Hfresh, load_fresh_unfold, Hcfg. cbv zeta.
  rewrite (load_loop_unknown_names E pt cfg (provider cfg) _ None s Hreg Hall).
  eexists. split; [reflexivity|].
  generalize (build_providers_to_try cfg). intros l.
  assert (Hevs : forall l' : list string,
    attempted (l' ≫= (fun n => [EvAttempt pt n; EvUnknownProvider pt n])) = l' /\
    constructed (l' ≫= (fun n => [EvAttempt pt n; EvUnknownProvider pt n])) = [] /\
    construct_failures (l' ≫= (fun n => [EvAttempt pt n; EvUnknownProvider pt n])) = [] /\
    load_warnings (l' ≫= (fun n => [EvAttempt pt n; EvUnknownProvider pt n])) = []).
  { induction l' as [|x l' (H1 & H2 & H3 & H4)]; [done|]. cbn.
    repeat split; auto. by f_equal. }
  destruct (Hevs l) as (H1 & H2 & H3 & H4).
  set (L := l ≫= _) in *. set (x := EvLoadError _ _ _).
  change (EvLoading pt :: L ++ [x]) with ([EvLoading pt] ++ L ++ [x]).
  rewrite !attempted_app, !constructed_app, H1, H2.
  unfold construct_failures, load_warnings in *. rewrite !omap_app, H3, H4.
  cbn. by rewrite app_nil_r.
Qed.

Lemma load_all_names_unknown_witness :
  exists evs,
    load env_ok "ai" false (mk_store cfg_unknown_names)
      = (mk_store cfg_unknown_names, evs,
         Raise (RuntimeError (LoadFailed "ai" (build_providers_to_try cfg_unknown_names)
                                None))) /\
    attempted evs = build_providers_to_try cfg_unknown_names /\
    constructed evs = [] /\ construct_failures evs = [] /\ load_warnings evs = [].
Proof.
  apply (load_all_names_unknown env_ok "ai" false (mk_store cfg_unknown_names)
           cfg_unknown_names).
  - discriminate.
  - reflexivity.
  - intros n Hn. vm_compute in Hn.
    apply elem_of_cons in Hn as [-> | Hn]; [reflexivity|].
    apply elem_of_cons in Hn as [-> | Hn]; [reflexivity|].
    by apply elem_of_nil in Hn.
  - right. reflexivity.
Defined.

Lemma load_loop_calls (E : Env) (pt : string) (cfg : ProviderConfig) (prim : string)
    (providers : list string) :
  forall (le : option exn) (s s' : Store) (evs : list event) r,
  load_loop E pt cfg prim providers le s = (s', evs, r) ->
  tick s' = tick s + length (constructed evs) + length (construct_failures evs) /\
  length (constructed evs) + length (construct_failures evs) <= length (attempted evs).
Proof.
  induction providers as [|name rest IH]; intros le s s' evs r Hrun.
  - cbn in Hrun. injection Hrun as <- <- <-. cbn. lia.
  - rewrite load_loop_cons in Hrun.
    pose proof (load_candidate_cases E pt cfg prim name le s) as Hc. cbv zeta in Hc.
    destruct Hc as [[_ Hout] | [(_ & _ & Hout) |
      [(cp & msg & _ & _ & Hout) | (cp & _ & _ & Hout)]]];
      rewrite Hout in Hrun.
    + destruct (load_loop E pt cfg prim rest _ s) as [[s2 ev2] r2] eqn:Hrest.
      injection Hrun as <- <- <-. apply IH in Hrest as (Ht & Hle).
      unfold constructed, construct_failures, attempted in *. cbn in *. lia.
    + destruct (load_loop E pt cfg prim rest _ s) as [[s2 ev2] r2] eqn:Hrest.
      injection Hrun as <- <- <-. apply IH in Hrest as (Ht & Hle).
      unfold constructed, construct_failures, attempted in *. cbn in *. lia.
    + destruct (load_loop E pt cfg prim rest _ _) as [[s2 ev2] r2] eqn:Hrest.
      injection Hrun as <- <- <-. apply IH in Hrest as (Ht & Hle).
      cbn [tick] in Ht.
      unfold constructed, construct_failures, attempted in *. cbn in *. lia.
    + cbv zeta in Hrun. injection Hrun as <- <- <-. cbn. lia.
Qed.

(** X8: the moment advances by one for each constructor call, and by nothing
    else: a call of [load] makes as many constructor calls as it records
    objects constructed and constructor failures, at most one per candidate
    announced, and at most one of them returns. *)
Theorem load_constructor_calls (E : Env) (pt : string) (fr : bool) (s s' : Store)
    (evs : list event) (r : res Instance) :
  load E pt fr s = (s', evs, r) ->
  tick s' = tick s + length (constructed evs) + length (construct_failures evs) /\
  length (constructed evs) + length (construct_failures evs) <= length (attempted evs) /\
  length (constructed evs) <= 1.
Proof.
  intros Hrun.
  apply load_cases in Hrun as [(-> & cached & Hc & -> & -> & ->) | (_ & Hrun)].
  - cbn. lia.
  - assert (H1 : length (constructed evs) <= 1).
    { pose proof (load_fresh_spec E pt s s' evs r Hrun) as (_ & _ & _ & _ & Hr).
      destruct r as [i|e].
      - destruct Hr as (? & ? & ? & ? & _ & _ & _ & _ & _ & _ & _ & ->). cbn. lia.
      - destruct Hr as (_ & -> & _). cbn. lia. }
    split; [|split; [|exact H1]]; revert Hrun;
      rewrite load_fresh_unfold; cbv zeta;
      (destruct (settings s !! pt) as [cfg|];
       [|intros Hrun; injection Hrun as <- <- <-; cbn; lia]);
      destruct (load_loop E pt cfg (provider cfg) (build_providers_to_try cfg) None s)
        as [[s1 ev1] [i|le]] eqn:Hloop;
      apply load_loop_calls in Hloop as (Ht & Hle');
      intros Hrun; injection Hrun as <- <- <-;
      change (EvLoading pt :: ?l) with ([EvLoading pt] ++ l);
      rewrite ?constructed_app, ?attempted_app;
      unfold construct_failures in *; rewrite ?omap_app, ?length_app; cbn; lia.
Qed.

Lemma load_constructor_calls_witness :
  match load env_only_groq "ai" true
          (mk_store {| provider := "huggingface"; fallback := FbList ["groq"] |}) with
  | (s', evs, _) =>
      tick s' = 0 + length (constructed evs) + length (construct_failures evs) /\
      length (constructed evs) + length (construct_failures evs)
        <= length (attempted evs) /\
      length (constructed evs) <= 1
  end.
Proof.
  destruct (load env_only_groq "ai" true _) as [[s' evs] r] eqn:Hrun.
  exact (load_constructor_calls env_only_groq "ai" true _ s' evs r Hrun).
Defined.

Lemma load_other_slots (E : Env) (pt : string) (fr : bool) (s s' : Store)
    (evs : list event) (r : res Instance) :
  load E pt fr s = (s', evs, r) ->
  forall c, c <> pt -> cache s' !! c = cache s !! c.
Proof.
  intros Hrun c Hne.
  apply load_cases in Hrun as [(-> & cached & Hc & -> & -> & ->) | (_ & Hrun)]; [done|].
  apply load_fresh_spec in Hrun as (_ & _ & _ & _ & Hr).
  destruct r as [i|e].
  - destruct Hr as (? & ? & ? & ? & _ & _ & _ & _ & _ & _ & -> & _).
    by rewrite lookup_insert_ne.
  - by destruct Hr as (-> & _).
Qed.

(** What a loading step of the wrapper leaves alone. *)
Lemma ensure_loaded_others (E : Env) (w : Wrapper) (name : string) (s s1 : Store)
    (ev1 : list event) (w1 : Wrapper) (loaded : bool) :
  ensure_loaded E w name s = (s1, ev1, (w1, loaded)) ->
  fallback_providers w1 = fallback_providers w /\
  (fallback <$> settings s1 !! "ai") = (fallback <$> settings s !! "ai") /\
  forall c, c <> "ai" ->
    cache s1 !! c = cache s !! c /\ settings s1 !! c = settings s !! c.
Proof.
  unfold ensure_loaded.
  destruct (bool_decide (_current_provider_name w <> Some name)).
  - destruct (bool_decide (name = primary_provider_name w)).
    + unfold bind. rewrite _load_primary_unfold.
      destruct (load E "ai" false s) as [[s' evs] [p|e]] eqn:Hload;
        pose proof (load_other_slots _ _ _ _ _ _ _ Hload) as Hoth;
        apply load_frame in Hload as (Hset & _);
        unfold ret; intros Hrun; injection Hrun as <- <- <- <-;
        rewrite Hset; repeat split; auto.
    + rewrite _load_fallback_unfold. cbv zeta.
      destruct (settings s !! "ai") as [ai|] eqn:Hai.
      * destruct (load E "ai" true _) as [[s' evs] [p|e]] eqn:Hload;
          pose proof (load_other_slots _ _ _ _ _ _ _ Hload) as Hoth;
          apply load_frame in Hload as (Hset & _);
          cbn [cache settings] in Hoth, Hset;
          intros Hrun; injection Hrun as <- <- <- <-; cbn [cache settings].
        -- rewrite Hset. split; [done|]. split.
           ++ rewrite lookup_alter_eq, lookup_insert_eq. done.
           ++ intros c Hc. rewrite Hoth by done.
              rewrite lookup_delete_ne by done.
              rewrite lookup_alter_ne by done. by rewrite lookup_insert_ne.
        -- rewrite Hset. split; [done|]. split.
           ++ rewrite lookup_insert_eq. done.
           ++ intros c Hc. rewrite Hoth by done.
              rewrite lookup_delete_ne by done. by rewrite lookup_insert_ne.
      * intros Hrun; injection Hrun as <- <- <- <-. cbn [cache settings].
        rewrite Hai. repeat split; auto. by rewrite lookup_delete_ne.
  - intros Hrun; injection Hrun as <- <- <- <-. repeat split; auto.
Qed.

Lemma generate_loop_others (E : Env) (q : string -> bool) (content : string)
    (providers : list string) :
  forall (w : Wrapper) (le : option exn) (tried : list string) (s s' : Store)
         (evs : list event) (w' : Wrapper) (tried' : list string) r,
  generate_loop E q content providers w le tried s = (s', evs, (w', tried', r)) ->
  fallback_providers w' = fallback_providers w /\
  (fallback <$> settings s' !! "ai") = (fallback <$> settings s !! "ai") /\
  forall c, c <> "ai" ->
    cache s' !! c = cache s !! c /\ settings s' !! c = settings s !! c.
Proof.
  induction providers as [|name rest IH]; intros w le tried s s' evs w' tried' r Hrun.
  - cbn in Hrun. by injection Hrun as <- <- <- <- <-.
  - rewrite generate_loop_cons in Hrun.
    destruct (ensure_loaded E w name s) as [[s1 ev1] [w1 loaded]] eqn:Hload.
    apply ensure_loaded_others in Hload as (Hfb1 & Hset1 & Hoth1).
    assert (Hskip : forall le0 tried0 ev s0,
      after ev (generate_loop E q content rest w1 le0 tried0 s0)
        = (s', evs, (w', tried', r)) ->
      cache s0 = cache s1 -> settings s0 = settings s1 ->
      fallback_providers w' = fallback_providers w /\
      (fallback <$> settings s' !! "ai") = (fallback <$> settings s !! "ai") /\
      forall c, c <> "ai" ->
        cache s' !! c = cache s !! c /\ settings s' !! c = settings s !! c).
    { intros le0 tried0 ev s0 Hafter Hc0 Hs0. unfold after in Hafter.
      destruct (generate_loop E q content rest w1 le0 tried0 s0)
        as [[s2 ev2] [[w2 tried2] r2]] eqn:Hrest.
      injection Hafter as <- <- <- <- <-.
      apply IH in Hrest as (Hfb & Hset & Hoth).
      rewrite Hc0, Hs0 in *.
      split; [congruence|]. split; [congruence|].
      intros c Hc. destruct (Hoth c Hc) as [-> ->]. by apply Hoth1. }
    destruct loaded; cbn [negb] in Hrun; [|by eapply Hskip].
    destruct (_current_provider w1) as [p|]; [|by eapply Hskip].
    destruct (operate E (tick s1) p content) as [msg|result]; [by eapply Hskip|].
    injection Hrun as <- <- <- <- <-. cbn [bump cache settings]. done.
Qed.

(** X9: a call touches the slot of its own capability only.  [load] leaves
    the cache entries of the other capabilities and all the settings as they
    were; [generate_script] leaves the cache entries and the settings of the
    capabilities other than ["ai"] as they were, and the fallback list of
    ["ai"] too. *)
Theorem calls_touch_their_own_slot (E : Env) :
  (forall (pt : string) (fr : bool) (s s' : Store) (evs : list event)
          (r : res Instance),
     load E pt fr s = (s', evs, r) ->
     settings s' = settings s /\
     forall c, c <> pt -> cache s' !! c = cache s !! c)
  /\ (forall (w : Wrapper) (content : string) (s s' : Store) (evs : list event) out,
        generate_script E w content s = (s', evs, out) ->
        (fallback <$> settings s' !! "ai") = (fallback <$> settings s !! "ai") /\
        forall c, c <> "ai" ->
          cache s' !! c = cache s !! c /\ settings s' !! c = settings s !! c).
Proof.
  split.
  - intros pt fr s s' evs r Hrun. split.
    + by apply load_frame in Hrun as (Hset & _).
    + by eapply load_other_slots.
  - intros w content s s' evs out. rewrite generate_script_unfold.
    destruct (generate_loop E is_quota_error content (providers_to_try w) w None [] s)
      as [[s1 ev1] [[w1 tried] r]] eqn:Hloop.
    apply generate_loop_others in Hloop as (_ & Hset & Hoth).
    destruct r; intros Hrun; injection Hrun as <- <- <-; done.
Qed.

Lemma calls_touch_their_own_slot_witness :
  match load env_ok "tts" true
          {| cache := cache s_groq; settings := {[ "tts" := cfg_music ]}; tick := 1 |} with
  | (s', _, _) => cache s' !! "ai" = Some groq_instance
  end
  /\ match generate_script env_groq_down w_groq "content" s_groq with
     | (s', _, _) => (fallback <$> settings s' !! "ai") = Some (FbList ["huggingface"])
     end.
Proof.
  split.
  - destruct (load env_ok "tts" true _) as [[s' evs] r] eqn:Hrun.
    destruct (proj1 (calls_touch_their_own_slot env_ok) _ _ _ _ _ _ Hrun) as (_ & Hoth).
    rewrite (Hoth "ai"); [reflexivity | discriminate].
  - destruct (generate_script env_groq_down w_groq "content" s_groq)
      as [[s' evs] out] eqn:Hrun.
    destruct (proj2 (calls_touch_their_own_slot env_groq_down) _ _ _ _ _ _ Hrun)
      as (Hfb & _).
    rewrite Hfb. reflexivity.
Defined.

(** * Further properties of the wrapper *)

Lemma with_provider_id (c : ProviderConfig) : with_provider (provider c) c = c.
Proof. by destruct c. Qed.

(** X10: when [_load_fallback] succeeds, the provider name it wrote into the
    settings is put back: the settings are exactly those it found; the
    wrapper holds the object that [load] returned under the name asked for,
    and the cache holds that object. *)
Theorem load_fallback_restores_settings (E : Env) (w w' : Wrapper) (name : string)
    (s s' : Store) (evs : list event) :
  _load_fallback E w name s = (s', evs, (w', true)) ->
  settings s' = settings s /\
  exists p, w' = set_current w (Some p) (Some name) /\ cache s' !! "ai" = Some p /\
            p ∈ constructed evs.
Proof.
  rewrite _load_fallback_unfold. cbv zeta.
  destruct (settings s !! "ai") as [ai|] eqn:Hai; [|discriminate].
  destruct (load E "ai" true _) as [[s1 ev1] [p|e]] eqn:Hload; [|discriminate].
  pose proof (load_frame _ _ _ _ _ _ _ Hload) as (Hset & _ & _ & _ & _ & Hc).
  cbn [settings] in Hset.
  intros Hrun; injection Hrun as <- <- <-. cbn [settings cache]. split.
  - rewrite Hset. apply map_eq. intros c.
    destruct (decide (c = "ai")) as [->|Hne].
    + rewrite lookup_alter_eq, lookup_insert_eq, Hai. cbn. f_equal.
      unfold with_provider. cbn. by destruct ai.
    + rewrite lookup_alter_ne by done. by rewrite lookup_insert_ne.
  - exists p. repeat split; auto.
    apply load_cases in Hload as [(Hfr & _) | (_ & Hfresh)]; [discriminate|].
    apply load_fresh_spec in Hfresh as (_ & _ & _ & _ & Hr).
    destruct Hr as (? & ? & ? & ? & _ & _ & _ & _ & _ & _ & _ & Hcon).
    rewrite constructed_app, Hcon. set_solver.
Qed.

Lemma load_fallback_restores_settings_witness :
  settings (bump s_groq) = settings s_groq.
Proof.
  destruct (load_fallback_restores_settings env_ok w_groq
              (set_current w_groq
                 (Some {| inst_class := "app.plugins.ai.huggingface_plugin.HuggingFaceProvider";
                          inst_id := 1 |}) (Some "huggingface"))
              "huggingface" s_groq
              {| cache := {[ "ai" := {| inst_class :=
                                          "app.plugins.ai.huggingface_plugin.HuggingFaceProvider";
                                        inst_id := 1 |} ]};
                 settings := settings s_groq; tick := 2 |}
              [EvLoading "ai"; EvAttempt "ai" "huggingface";
               EvImporting "app.plugins.ai.huggingface_plugin.HuggingFaceProvider";
               EvConstructed "ai" "huggingface"
                 {| inst_class := "app.plugins.ai.huggingface_plugin.HuggingFaceProvider";
                    inst_id := 1 |};
               EvProviderInfo "ai" "huggingface"; EvLoaded "ai" "huggingface" false;
               EvSwitched "huggingface"]) as (Hs & _).
  - vm_compute. reflexivity.
  - exact Hs.
Defined.

(** X11: when [_load_fallback] fails, the wrapper is as it was, but the store
    is not: the cache has lost the object of ["ai"], whatever it was, and the
    settings name the fallback as the provider of ["ai"], the name is not
    put back. *)
Theorem load_fallback_failure_leaves_override (E : Env) (w w' : Wrapper)
    (name : string) (s s' : Store) (evs : list event) (ai : ProviderConfig) :
  settings s !! "ai" = Some ai ->
  _load_fallback E w name s = (s', evs, (w', false)) ->
  w' = w /\
  cache s' !! "ai" = None /\
  settings s' !! "ai" = Some (with_provider name ai) /\
  constructed evs = [].
Proof.
  intros Hai. rewrite _load_fallback_unfold, Hai. cbv zeta.
  destruct (load E "ai" true _) as [[s1 ev1] [p|e]] eqn:Hload; [discriminate|].
  apply load_frame in Hload as (Hset & _ & _ & _ & _ & Hc & Hcon).
  cbn [settings cache] in Hset, Hc.
  intros Hrun; injection Hrun as <- <- <-.
  rewrite Hc, Hset, constructed_app, Hcon.
  repeat split; auto.
  - apply lookup_delete_eq.
  - apply lookup_insert_eq.
Qed.

Lemma load_fallback_failure_leaves_override_witness :
  match _load_fallback env_only_groq w_groq "huggingface" s_groq with
  | (s', evs, (w', _)) =>
      w' = w_groq /\ cache s' !! "ai" = None /\
      settings s' !! "ai" = Some (with_provider "huggingface" cfg_groq_hf) /\
      constructed evs = []
  end.
Proof.
  destruct (_load_fallback env_only_groq w_groq "huggingface" s_groq)
    as [[s' evs] [w' b]] eqn:Hrun.
  assert (b = false) as ->.
  { vm_compute in Hrun. by injection Hrun as <- <- <- <-. }
  exact (load_fallback_failure_leaves_override env_only_groq w_groq w' "huggingface"
           s_groq s' evs cfg_groq_hf eq_refl Hrun).
Defined.

(** X12: the turn of the primary takes whatever object the cache holds for
    ["ai"].  When the wrapper does not regard the primary as current and the
    cache holds an object, of any class, [generate_script] constructs
    nothing, invokes the operation of that object under the name of the
    primary, and returns its result. *)
Theorem primary_turn_reuses_cached_object (E : Env) (w : Wrapper)
    (content result : string) (s : Store) (p : Instance) (rest : list string) :
  providers_to_try w = primary_provider_name w :: rest ->
  _current_provider_name w <> Some (primary_provider_name w) ->
  cache s !! "ai" = Some p ->
  operate E (tick s) p content = inr result ->
  generate_script E w content s =
  (bump s,
   [EvCacheHit "ai"; EvGenerating (primary_provider_name w);
    EvInvoked (primary_provider_name w) p None;
    EvGenerated (primary_provider_name w) false],
   (set_current w (Some p) (Some (primary_provider_name w)), Ok result)).
Proof.
  intros Hchain Hcur Hc Hop.
  rewrite generate_script_unfold, Hchain, generate_loop_cons.
  unfold ensure_loaded.
  rewrite (bool_decide_true _ Hcur), (bool_decide_true _ eq_refl).
  unfold bind. rewrite _load_primary_unfold, load_unfold, Hc.
  unfold ret. cbn [negb set_current _current_provider primary_provider_name].
  rewrite Hop. by rewrite dec_stable_ne.
Qed.

Lemma primary_turn_reuses_cached_object_witness :
  generate_script env_ok w_after_fallback "content" s_after_fallback =
  (bump s_after_fallback,
   [EvCacheHit "ai"; EvGenerating "groq"; EvInvoked "groq" hf_instance None;
    EvGenerated "groq" false],
   (set_current w_after_fallback (Some hf_instance) (Some "groq"), Ok "R")).
Proof.
  apply (primary_turn_reuses_cached_object env_ok w_after_fallback "content" "R"
           s_after_fallback hf_instance ["huggingface"]).
  - reflexivity.
  - discriminate.
  - reflexivity.
  - reflexivity.
Defined.

(** The store and the wrapper of the witness above are those that a first
    call leaves when Groq's operation raises and HuggingFace serves. *)
Example after_fallback_reached :
  match first_call env_groq_down cfg_groq_hf with
  | Some (r, w, s, _) => r = Ok "R" /\ w = w_after_fallback /\ s = s_after_fallback
  | None => False
  end.
Proof. vm_compute. repeat split; reflexivity. Qed.

Lemma init_unfold (E : Env) (s : Store) :
  init E s =
  match settings s !! "ai" with
  | None => (s, [], Raise (AttributeError "ai"))
  | Some ai =>
      let w := {| primary_provider_name := provider ai;
                  fallback_providers := fallback ai;
                  providers_to_try := init_providers_to_try (provider ai) (fallback ai);
                  _current_provider := None;
                  _current_provider_name := None |} in
      match load E "ai" false s with
      | (s', evs, Ok p) => (s', evs, Ok (set_current w (Some p) (Some (provider ai))))
      | (s', evs, Raise e) =>
          (s', evs ++ [EvPrimaryFailed e], Ok (set_current w None None))
      end
  end.
Proof.
  unfold init. unfold bind at 1. unfold get at 1. cbv beta iota.
  destruct (settings s !! "ai") as [ai|]; [|reflexivity].
  cbv zeta. unfold bind. rewrite _load_primary_unfold.
  destruct (load E "ai" false s) as [[s' evs] [p|e]]; unfold ret; cbn;
    by rewrite !app_nil_r.
Qed.

(** X13: the chain of the wrapper is that of the settings at the time it was
    built, and no call changes it: [generate_script] changes
    [_current_provider] and [_current_provider_name] and no other field,
    whatever has become of the settings. *)
Theorem wrapper_chain_is_fixed (E : Env) :
  (forall (s s' : Store) (evs : list event) (w : Wrapper) (ai : ProviderConfig),
     settings s !! "ai" = Some ai ->
     init E s = (s', evs, Ok w) ->
     primary_provider_name w = provider ai /\
     fallback_providers w = fallback ai /\
     providers_to_try w = build_providers_to_try ai)
  /\ (forall (w w' : Wrapper) (content : string) (s s' : Store) (evs : list event)
             (out : res string),
        generate_script E w content s = (s', evs, (w', out)) ->
        w' = set_current w (_current_provider w') (_current_provider_name w')).
Proof.
  split.
  - intros s s' evs w ai Hai. rewrite init_unfold, Hai. cbv zeta.
    destruct (load E "ai" false s) as [[s1 ev1] [p|e]];
      intros Hrun; injection Hrun as <- <- <-;
      cbn [set_current primary_provider_name fallback_providers providers_to_try];
      (repeat split; auto; apply init_providers_to_try_eq).
  - intros w w' content s s' evs out. rewrite generate_script_unfold.
    destruct (generate_loop E is_quota_error content (providers_to_try w) w None [] s)
      as [[s1 ev1] [[w1 tried] r]] eqn:Hloop.
    pose proof (generate_loop_others _ _ _ _ _ _ _ _ _ _ _ _ _ Hloop) as (Hfb & _).
    apply generate_loop_spec in Hloop as (_ & _ & _ & Hprim & Hchain & _).
    destruct r; intros Hrun; injection Hrun as <- <- <- <-;
      destruct w1, w; cbn in *; by subst.
Qed.

Lemma wrapper_chain_is_fixed_witness :
  (primary_provider_name w_groq = provider cfg_groq_hf /\
   fallback_providers w_groq = fallback cfg_groq_hf /\
   providers_to_try w_groq = build_providers_to_try cfg_groq_hf)
  /\ match generate_script env_groq_down w_groq "content" s_groq with
     | (_, _, (w', _)) =>
         w' = set_current w_groq (_current_provider w') (_current_provider_name w')
     end.
Proof.
  split.
  - apply (proj1 (wrapper_chain_is_fixed env_ok) (mk_store cfg_groq_hf) s_groq
             [EvLoading "ai"; EvAttempt "ai" "groq";
              EvImporting "app.plugins.ai.groq_plugin.GroqProvider";
              EvConstructed "ai" "groq" groq_instance;
              EvProviderInfo "ai" "groq"; EvLoaded "ai" "groq" false]).
    + reflexivity.
    + vm_compute. reflexivity.
  - destruct (generate_script env_groq_down w_groq "content" s_groq)
      as [[s' evs] [w' out]] eqn:Hrun.
    exact (proj2 (wrapper_chain_is_fixed env_groq_down) _ _ _ _ _ _ _ Hrun).
Defined.

(** X14: building the wrapper never raises when the settings hold ["ai"].
    When [load] returns an object the wrapper holds it under the name of the
    primary, whichever candidate of [load]'s own chain it was constructed
    from, and the cache holds it; when [load] fails the failure is logged,
    the wrapper has no provider and no provider name, and the cache is as it
    was. *)
Theorem init_never_raises (E : Env) (s s' : Store) (evs : list event)
    (r : res Wrapper) (ai : ProviderConfig) :
  settings s !! "ai" = Some ai ->
  init E s = (s', evs, r) ->
  exists w, r = Ok w /\
    match _current_provider w with
    | Some p =>
        _current_provider_name w = Some (provider ai) /\
        cache s' !! "ai" = Some p /\
        (cache s !! "ai" = Some p \/
         exists name, name ∈ build_providers_to_try ai /\
                      registered "ai" name = Some (inst_class p))
    | None =>
        _current_provider_name w = None /\ cache s' = cache s /\
        constructed evs = [] /\
        exists e, last evs = Some (EvPrimaryFailed e)
    end.
Proof.
  intros Hai. rewrite init_unfold, Hai. cbv zeta.
  destruct (load E "ai" false s) as [[s1 ev1] [p|e]] eqn:Hload;
    intros Hrun; injection Hrun as <- <- <-; eexists; (split; [reflexivity|]);
    cbn [set_current _current_provider _current_provider_name].
  - pose proof (load_frame _ _ _ _ _ _ _ Hload) as (_ & _ & _ & _ & _ & Hc).
    split; [done|]. split; [done|].
    apply load_cases in Hload as [(_ & cached & Hc0 & -> & -> & Heq) | (_ & Hfresh)].
    + left. congruence.
    + right. apply load_fresh_spec in Hfresh as (_ & _ & _ & _ & Hr).
      destruct Hr as (cfg & pre & name & post & Hcfg & Hchain & _ & Hreg & _).
      assert (cfg = ai) as -> by congruence.
      exists name. split; [|done]. rewrite Hchain. set_solver.
  - apply load_frame in Hload as (_ & _ & _ & _ & _ & Hc & Hcon).
    rewrite constructed_app, Hcon. repeat split; auto.
    exists e. apply last_snoc.
Qed.

Lemma init_never_raises_witness :
  match init env_no_credentials (mk_store cfg_groq_hf) with
  | (s', evs, r) =>
      exists w, r = Ok w /\
        match _current_provider w with
        | Some p =>
            _current_provider_name w = Some (provider cfg_groq_hf) /\
            cache s' !! "ai" = Some p /\
            (cache (mk_store cfg_groq_hf) !! "ai" = Some p \/
             exists name, name ∈ build_providers_to_try cfg_groq_hf /\
                          registered "ai" name = Some (inst_class p))
        | None =>
            _current_provider_name w = None /\ cache s' = cache (mk_store cfg_groq_hf) /\
            constructed evs = [] /\
            exists e, last evs = Some (EvPrimaryFailed e)
        end
  end.
Proof.
  destruct (init env_no_credentials (mk_store cfg_groq_hf)) as [[s' evs] r] eqn:Hrun.
  exact (init_never_raises env_no_credentials (mk_store cfg_groq_hf) s' evs r
           cfg_groq_hf eq_refl Hrun).
Defined.

Lemma load_fails_without_constructor (E : Env) (pt : string) (fr : bool)
    (s s' : Store) (evs : list event) (r : res Instance) :
  (forall t cp cfg, construct E t cp cfg <> None) ->
  fr = true \/ cache s !! pt = None ->
  load E pt fr s = (s', evs, r) ->
  exists e, r = Raise e /\ cache s' = cache s /\ constructed evs = [] /\ invoked evs = [].
Proof.
  intros Hno Hmiss Hrun.
  apply load_cases in Hrun as [(-> & cached & Hc & _) | (_ & Hrun)].
  - destruct Hmiss; congruence.
  - apply load_fresh_spec in Hrun as (_ & _ & Hinv & _ & Hr).
    destruct r as [i|e].
    + destruct Hr as (cfg & ? & ? & ? & _ & _ & _ & _ & Hcons & _).
      by apply Hno in Hcons.
    + destruct Hr as (Hc & Hcon & _). eauto.
Qed.

Lemma generate_loop_nothing_loads (E : Env) (q : string -> bool) (content : string)
    (providers : list string) :
  (forall t cp cfg, construct E t cp cfg <> None) ->
  forall (w : Wrapper) (le : option exn) (tried : list string) (s : Store),
  cache s !! "ai" = None ->
  _current_provider w = None ->
  _current_provider_name w = None ->
  exists s' evs w',
    generate_loop E q content providers w le tried s = (s', evs, (w', tried, inr le)) /\
    invoked evs = [] /\ constructed evs = [] /\
    cache s' !! "ai" = None /\
    _current_provider w' = None /\ _current_provider_name w' = None.
Proof.
  intros Hno. induction providers as [|name rest IH]; intros w le tried s Hc Hp Hn.
  - eexists _, _, _. split; [reflexivity|]. done.
  - rewrite generate_loop_cons. unfold ensure_loaded.
    assert (Hne : _current_provider_name w <> Some name) by (rewrite Hn; discriminate).
    rewrite (bool_decide_true _ Hne).
    destruct (bool_decide (name = primary_provider_name w)).
    + unfold bind. rewrite _load_primary_unfold.
      destruct (load E "ai" false s) as [[s1 ev1] r1] eqn:Hload.
      destruct (load_fails_without_constructor E "ai" false s s1 ev1 r1 Hno
                  (or_intror Hc) Hload) as (e & -> & Hc1 & Hcon1 & Hinv1).
      unfold ret. cbn [negb set_current _current_provider].
      destruct (IH (set_current w None (_current_provider_name w)) le tried s1)
        as (s' & evs & w' & Hrun & Hinv & Hcon & Hc' & Hp' & Hn'); [congruence|done|done|].
      rewrite Hrun. unfold after. eexists _, _, _. split; [reflexivity|].
      rewrite !invoked_app, !constructed_app, Hinv1, Hcon1, Hinv, Hcon. done.
    + rewrite _load_fallback_unfold. cbv zeta.
      destruct (settings s !! "ai") as [ai|].
      * destruct (load E "ai" true _) as [[s1 ev1] r1] eqn:Hload.
        destruct (load_fails_without_constructor E "ai" true _ s1 ev1 r1 Hno
                    (or_introl eq_refl) Hload) as (e & -> & Hc1 & Hcon1 & Hinv1).
        cbn [cache] in Hc1. cbn [negb].
        destruct (IH w le tried s1)
          as (s' & evs & w' & Hrun & Hinv & Hcon & Hc' & Hp' & Hn');
          [rewrite Hc1; apply lookup_delete_eq|done|done|].
        rewrite Hrun. unfold after. eexists _, _, _. split; [reflexivity|].
        rewrite !invoked_app, !constructed_app, Hinv1, Hcon1, Hinv, Hcon. done.
      * cbn [negb].
        destruct (IH w le tried
                    {| cache := delete "ai" (cache s); settings := settings s;
                       tick := tick s |})
          as (s' & evs & w' & Hrun & Hinv & Hcon & Hc' & Hp' & Hn');
          [apply lookup_delete_eq|done|done|].
        rewrite Hrun. unfold after. eexists _, _, _. split; [reflexivity|].
        rewrite !invoked_app, !constructed_app, Hinv, Hcon. done.
Qed.

(** X15: when no constructor returns and nothing is loaded yet (the wrapper
    holds no provider and the cache no object for ["ai"]), [generate_script]
    invokes no operation and raises the [RuntimeError] with an empty list of
    tried providers and no last error ("Tried: []. Last error: None"): the
    errors of the constructors are in the log only. *)
Theorem generate_script_when_nothing_loads (E : Env) (w : Wrapper) (content : string)
    (s : Store) :
  (forall t cp cfg, construct E t cp cfg <> None) ->
  cache s !! "ai" = None ->
  _current_provider w = None ->
  _current_provider_name w = None ->
  exists s' evs w',
    generate_script E w content s
      = (s', evs, (w', Raise (RuntimeError (AllAIFailed [] None)))) /\
    invoked evs = [] /\ constructed evs = [] /\
    cache s' !! "ai" = None /\ _current_provider w' = None.
Proof.
  intros Hno Hc Hp Hn. rewrite generate_script_unfold.
  destruct (generate_loop_nothing_loads E is_quota_error content (providers_to_try w)
              Hno w None [] s Hc Hp Hn)
    as (s' & evs & w' & Hrun & Hinv & Hcon & Hc' & Hp' & _).
  rewrite Hrun. eexists _, _, _. split; [reflexivity|].
  rewrite invoked_app, constructed_app, Hinv, Hcon. done.
Qed.

Lemma generate_script_when_nothing_loads_witness :
  exists s' evs w',
    generate_script env_no_credentials (set_current w_groq None None) "content"
      (mk_store cfg_groq_hf)
      = (s', evs, (w', Raise (RuntimeError (AllAIFailed [] None)))) /\
    invoked evs = [] /\ constructed evs = [] /\
    cache s' !! "ai" = None /\ _current_provider w' = None.
Proof.
  apply (generate_script_when_nothing_loads env_no_credentials
           (set_current w_groq None None) "content" (mk_store cfg_groq_hf)).
  - intros t cp cfg. discriminate.
  - reflexivity.
  - reflexivity.
  - reflexivity.
Defined.

(** ** The singleton *)

Lemma init_returns_wrapper (E : Env) (s s' : Store) (evs : list event)
    (r : res Wrapper) (ai : ProviderConfig) :
  settings s !! "ai" = Some ai ->
  init E s = (s', evs, r) ->
  exists w, r = Ok w /\
    primary_provider_name w = provider ai /\
    fallback_providers w = fallback ai /\
    providers_to_try w = build_providers_to_try ai.
Proof.
  intros Hai. rewrite init_unfold, Hai. cbv zeta.
  destruct (load E "ai" false s) as [[s1 ev1] [p|e]];
    intros Hrun; injection Hrun as <- <- <-; eexists; (split; [reflexivity|]);
    cbn [set_current primary_provider_name fallback_providers providers_to_try];
    (repeat split; auto; apply init_providers_to_try_eq).
Qed.

(** X16: [get_ai_provider] builds the wrapper on first use only.  Once the
    global holds a wrapper, a call returns it and does nothing else: no
    load, no constructor call, nothing logged, whatever the settings and the
    world have become.  Whenever the settings hold ["ai"] the first call
    leaves a wrapper in the global, even one that could load no provider. *)
Theorem singleton_built_once (E : Env) :
  (forall (w : Wrapper) (s : Store),
     get_ai_provider E (Some w) s = (s, [], (Some w, Ok w)))
  /\ (forall (s s' : Store) (evs : list event) (g : option Wrapper) (r : res Wrapper)
             (ai : ProviderConfig),
        settings s !! "ai" = Some ai ->
        get_ai_provider E None s = (s', evs, (g, r)) ->
        exists w, g = Some w /\ r = Ok w /\
          providers_to_try w = build_providers_to_try ai /\
          forall (E' : Env) (s'' : Store),
            get_ai_provider E' g s'' = (s'', [], (g, r))).
Proof.
  split; [done|].
  intros s s' evs g r ai Hai. unfold get_ai_provider, bind.
  destruct (init E s) as [[s1 ev1] r1] eqn:Hinit.
  destruct (init_returns_wrapper E s s1 ev1 r1 ai Hai Hinit) as (w & -> & _ & _ & Hch).
  unfold ret. intros Hrun; injection Hrun as <- <- <- <-.
  exists w. repeat split; auto.
Qed.

Lemma singleton_built_once_witness :
  exists w, Some w_groq = Some w /\ Ok w_groq = Ok w /\
    providers_to_try w = build_providers_to_try cfg_groq_hf /\
    forall (E' : Env) (s'' : Store),
      get_ai_provider E' (Some w_groq) s'' = (s'', [], (Some w_groq, Ok w_groq)).
Proof.
  apply (proj2 (singleton_built_once env_ok) (mk_store cfg_groq_hf) s_groq
           [EvLoading "ai"; EvAttempt "ai" "groq";
            EvImporting "app.plugins.ai.groq_plugin.GroqProvider";
            EvConstructed "ai" "groq" groq_instance;
            EvProviderInfo "ai" "groq"; EvLoaded "ai" "groq" false]
           (Some w_groq) (Ok w_groq) cfg_groq_hf).
  - reflexivity.
  - vm_compute. reflexivity.
Defined.

(** X17: the wrapper that the singleton holds keeps the chain it was built
    with through every call of the pipeline, also when the settings of
    ["ai"] have changed; after [reset_ai_provider] the next call builds the
    wrapper again, with the chain of the settings of that moment. *)
Theorem singleton_chain_until_reset (E : Env) :
  (forall (w : Wrapper) (content : string) (s s' : Store) (evs : list event)
          (g : option Wrapper) (out : res string),
     pipeline_script E (Some w) content s = (s', evs, (g, out)) ->
     exists w', g = Some w' /\
       primary_provider_name w' = primary_provider_name w /\
       providers_to_try w' = providers_to_try w)
  /\ (forall (g0 : option Wrapper) (content : string) (s s' : Store)
             (evs : list event) (g : option Wrapper) (out : res string)
             (ai : ProviderConfig),
        settings s !! "ai" = Some ai ->
        pipeline_script E (reset_ai_provider g0) content s = (s', evs, (g, out)) ->
        exists w', g = Some w' /\
          primary_provider_name w' = provider ai /\
          providers_to_try w' = build_providers_to_try ai).
Proof.
  assert (Hgen : forall w content s s' evs w' out,
    generate_script E w content s = (s', evs, (w', out)) ->
    primary_provider_name w' = primary_provider_name w /\
    providers_to_try w' = providers_to_try w).
  { intros w content s s' evs w' out. rewrite generate_script_unfold.
    destruct (generate_loop E is_quota_error content (providers_to_try w) w None [] s)
      as [[s1 ev1] [[w1 tried] r]] eqn:Hloop.
    apply generate_loop_spec in Hloop as (_ & _ & _ & Hprim & Hchain & _).
    destruct r; intros Hrun; injection Hrun as <- <- <- <-; done. }
  split.
  - intros w content s s' evs g out. unfold pipeline_script, get_ai_provider, bind, ret.
    cbv beta iota.
    destruct (generate_script E w content s) as [[s1 ev1] [w1 out1]] eqn:Hrun.
    intros Heq; injection Heq as <- <- <- <-.
    exists w1. split; [done|]. by eapply Hgen.
  - intros g0 content s s' evs g out ai Hai.
    unfold pipeline_script, reset_ai_provider, get_ai_provider, bind, ret.
    destruct (init E s) as [[s1 ev1] r1] eqn:Hinit.
    destruct (init_returns_wrapper E s s1 ev1 r1 ai Hai Hinit)
      as (w & -> & Hprim & _ & Hch).
    cbv beta iota.
    destruct (generate_script E w content s1) as [[s2 ev2] [w2 out2]] eqn:Hrun.
    intros Heq; injection Heq as <- <- <- <-.
    exists w2. split; [done|].
    destruct (Hgen _ _ _ _ _ _ _ Hrun) as [-> ->]. done.
Qed.

Lemma singleton_chain_until_reset_witness :
  (match pipeline_script env_ok (Some w_groq) "content"
           {| cache := cache s_groq; settings := {[ "ai" := cfg_three ]}; tick := 1 |} with
   | (_, _, (g, _)) =>
       exists w', g = Some w' /\
         primary_provider_name w' = primary_provider_name w_groq /\
         providers_to_try w' = providers_to_try w_groq
   end)
  /\ match pipeline_script env_ok (reset_ai_provider (Some w_groq)) "content"
             {| cache := cache s_groq; settings := {[ "ai" := cfg_three ]}; tick := 1 |} with
     | (_, _, (g, _)) =>
         exists w', g = Some w' /\
           primary_provider_name w' = provider cfg_three /\
           providers_to_try w' = build_providers_to_try cfg_three
     end.
Proof.
  split.
  - destruct (pipeline_script env_ok (Some w_groq) "content" _)
      as [[s' evs] [g out]] eqn:Hrun.
    exact (proj1 (singleton_chain_until_reset env_ok) _ _ _ _ _ _ _ Hrun).
  - destruct (pipeline_script env_ok (reset_ai_provider (Some w_groq)) "content" _)
      as [[s' evs] [g out]] eqn:Hrun.
    refine (proj2 (singleton_chain_until_reset env_ok) (Some w_groq) "content"
              {| cache := cache s_groq; settings := {[ "ai" := cfg_three ]}; tick := 1 |}
              s' evs g out cfg_three _ Hrun).
    reflexivity.
Defined.

(** * The settings *)

(** X18: the settings are read from the file system once.  After a call of
    [load_config] or [get_settings] that returned, [get_settings] returns
    the same settings without any access to the file system, whatever the
    files have become. *)
Theorem settings_read_once (F F' : FileSystem) (path : string)
    (g0 g : option (gmap string ProviderConfig)) (evs : list fs_event)
    (st : gmap string ProviderConfig) :
  load_config F path g0 = (g, evs, Ok st) \/ get_settings F g0 = (g, evs, Ok st) ->
  g = Some st /\ get_settings F' g = (g, [], Ok st).
Proof.
  assert (Hload : forall p g1, load_config F p g1 = (g, evs, Ok st) -> g = Some st).
  { intros p g1. unfold load_config.
    destruct (read_config F p) as [[st'|e]|].
    - by intros Hrun; injection Hrun as <- <- <-.
    - discriminate.
    - destruct (make_default F); [|discriminate].
      by intros Hrun; injection Hrun as <- <- <-. }
  intros [Hrun | Hrun].
  - apply Hload in Hrun as ->. done.
  - unfold get_settings in Hrun. destruct g0 as [st0|].
    + by injection Hrun as <- <- <-.
    + apply Hload in Hrun as ->. done.
Qed.

Lemma settings_read_once_witness :
  Some ({[ "ai" := cfg_groq_hf ]} : gmap string ProviderConfig) = Some {[ "ai" := cfg_groq_hf ]}
  /\ get_settings fs_broken (Some {[ "ai" := cfg_groq_hf ]})
     = (Some {[ "ai" := cfg_groq_hf ]}, [], Ok {[ "ai" := cfg_groq_hf ]}).
Proof.
  apply (settings_read_once fs_other fs_broken "other.yaml" None
           (Some {[ "ai" := cfg_groq_hf ]}) [FsExists "other.yaml"; FsOpen "other.yaml"]).
  left. reflexivity.
Defined.

(** X19: [reload_config] forgets the path: it reads ["config.yaml"] and no
    other file, whatever file the settings came from, and its outcome does
    not depend on the settings held before.  When it fails the settings are
    unset, so that the next [get_settings] reads the file again; when
    [load_config] fails the settings held before stay. *)
Theorem reload_config_reads_default_path (F : FileSystem)
    (g0 g : option (gmap string ProviderConfig)) (evs : list fs_event)
    (r : res (gmap string ProviderConfig)) :
  reload_config F g0 = (g, evs, r) ->
  (forall e, e ∈ evs -> e = FsExists "config.yaml" \/ e = FsOpen "config.yaml") /\
  (forall g1, reload_config F g1 = (g, evs, r)) /\
  (forall e, r = Raise e ->
     g = None /\
     get_settings F g = (g, evs, r) /\
     forall path g1 g' evs' e', load_config F path g1 = (g', evs', Raise e') -> g' = g1).
Proof.
  unfold reload_config, load_config. intros Hrun. split; [|split].
  - revert Hrun. destruct (read_config F "config.yaml") as [[st|e]|];
      [| |destruct (make_default F)];
      intros Hrun; injection Hrun as <- <- <-; intros e' He';
      rewrite !elem_of_cons, elem_of_nil in He'; tauto.
  - done.
  - intros e ->. split; [|split].
    + revert Hrun. destruct (read_config F "config.yaml") as [[st|e0]|];
        [| |destruct (make_default F)]; intros Hrun; by injection Hrun as <- <- ?.
    + assert (g = None) as ->.
      { revert Hrun. destruct (read_config F "config.yaml") as [[st|e0]|];
          [| |destruct (make_default F)]; intros Hrun; by injection Hrun as <- <- ?. }
      exact Hrun.
    + intros path g1 g' evs' e'. destruct (read_config F path) as [[st|e0]|];
        [| |destruct (make_default F)]; intros Hrun'; by injection Hrun' as <- <- ?.
Qed.

Lemma reload_config_reads_default_path_witness :
  match load_config fs_other "other.yaml" None with
  | (g0, _, _) =>
      g0 = Some {[ "ai" := cfg_groq_hf ]} /\
      match reload_config fs_other g0 with
      | (g, evs, r) =>
          evs = [FsExists "config.yaml"] /\
          r = Ok (list_to_map declared_defaults) /\
          (forall e, e ∈ evs -> e = FsExists "config.yaml" \/ e = FsOpen "config.yaml")
      end
  end.
Proof.
  destruct (load_config fs_other "other.yaml" None) as [[g0 ev0] r0] eqn:H0.
  vm_compute in H0. injection H0 as <- <- <-.
  split; [reflexivity|].
  destruct (reload_config fs_other _) as [[g evs] r] eqn:Hrun.
  destruct (reload_config_reads_default_path fs_other _ g evs r Hrun) as (Hev & _).
  vm_compute in Hrun. injection Hrun as <- <- <-.
  split; [reflexivity|]. split; [reflexivity | exact Hev].
Defined.

(** X20: the defaults that the configuration classes declare agree with the
    registry: they cover the capabilities of the registry, in the same
    order, and every name of the chain of a default configuration has a
    class registered under its capability.  So with the declared defaults
    as settings and an empty cache, [load] of a capability returns the object
    of the default provider's class as soon as its constructor returns. *)
Theorem declared_defaults_are_registered :
  declared_defaults.*1 = PLUGIN_REGISTRY.*1
  /\ (forall c cfg, (c, cfg) ∈ declared_defaults ->
        forall n, n ∈ build_providers_to_try cfg -> is_Some (registered c n))
  /\ (forall (E : Env) c cfg t,
        (c, cfg) ∈ declared_defaults ->
        (forall cp, construct E t cp cfg = None) ->
        exists cp s' evs,
          registered c (provider cfg) = Some cp /\
          load E c false {| cache := ∅; settings := list_to_map declared_defaults;
                            tick := t |}
            = (s', evs, Ok {| inst_class := cp; inst_id := t |})).
Proof.
  assert (Hcases : forall c cfg, (c, cfg) ∈ declared_defaults ->
    (list_to_map declared_defaults : gmap string ProviderConfig) !! c = Some cfg /\
    forall n, n ∈ build_providers_to_try cfg -> is_Some (registered c n)).
  { intros c cfg Hin. unfold declared_defaults in Hin.
    repeat (apply elem_of_cons in Hin as [Heq | Hin];
            [injection Heq as -> ->; split; [reflexivity|];
             intros n Hn; vm_compute in Hn;
             repeat (apply elem_of_cons in Hn as [-> | Hn]; [vm_compute; eauto|]);
             by apply elem_of_nil in Hn |]).
    by apply elem_of_nil in Hin. }
  split; [reflexivity|]. split.
  - intros c cfg Hin. by apply Hcases.
  - intros E c cfg t Hin Hcons.
    destruct (Hcases c cfg Hin) as (Hcfg & Hreg).
    destruct (Hreg (provider cfg)) as [cp Hcp].
    { rewrite build_providers_to_try_eq. left. }
    exists cp. eexists _, _. split; [done|].
    rewrite load_unfold. cbn [cache]. rewrite lookup_empty.
    by rewrite (load_fresh_primary_ok E c
                  {| cache := ∅; settings := list_to_map declared_defaults; tick := t |}
                  cfg cp Hcfg Hcp (Hcons cp)).
Qed.

Lemma declared_defaults_are_registered_witness :
  exists cp s' evs,
    registered "content" "reddit" = Some cp /\
    load env_ok "content" false
      {| cache := ∅; settings := list_to_map declared_defaults; tick := 0 |}
      = (s', evs, Ok {| inst_class := cp; inst_id := 0 |}).
Proof.
  apply (proj2 (proj2 declared_defaults_are_registered) env_ok "content"
           {| provider := "reddit"; fallback := FbStr "quotes" |} 0).
  - left.
  - reflexivity.
Defined.

(** * The current provider *)

(** X21: when the wrapper regards the first candidate of its chain as
    current and holds an object, [generate_script] goes straight to the
    operation of that object: it reads neither the cache nor the settings,
    loads and constructs nothing, and, when the operation returns, leaves
    the wrapper as it was and the store one moment later. *)
Theorem current_provider_is_served_directly (E : Env) (w : Wrapper)
    (content result : string) (s : Store) (p : Instance) (name : string)
    (rest : list string) :
  providers_to_try w = name :: rest ->
  _current_provider_name w = Some name ->
  _current_provider w = Some p ->
  operate E (tick s) p content = inr result ->
  generate_script E w content s =
  (bump s,
   [EvGenerating name; EvInvoked name p None;
    EvGenerated name (bool_decide (name <> primary_provider_name w))],
   (w, Ok result)).
Proof.
  intros Hchain Hn Hp Hop.
  rewrite generate_script_unfold, Hchain, generate_loop_cons.
  unfold ensure_loaded. rewrite Hn.
  rewrite bool_decide_false by (intros H; by apply H).
  unfold ret. cbn [negb]. rewrite Hp, Hop. reflexivity.
Qed.

Lemma current_provider_is_served_directly_witness :
  generate_script env_ok w_groq "content"
    {| cache := ∅; settings := ∅; tick := 7 |} =
  (bump {| cache := ∅; settings := ∅; tick := 7 |},
   [EvGenerating "groq"; EvInvoked "groq" groq_instance None;
    EvGenerated "groq" (bool_decide ("groq" <> primary_provider_name w_groq))],
   (w_groq, Ok "R")).
Proof.
  apply (current_provider_is_served_directly env_ok w_groq "content" "R"
           {| cache := ∅; settings := ∅; tick := 7 |} groq_instance "groq"
           ["huggingface"]); reflexivity.
Defined.

(** X22: after a call of [generate_script] that returned a result, the
    property [current_provider_name] is the name under which the last
    operation was invoked, a name of the chain, unless that name is the
    empty string, which reads as ["none"]; on a wrapper that never loaded a
    provider it is ["none"]. *)
Theorem current_provider_name_after_success (E : Env) (w w' : Wrapper)
    (content result : string) (s s' : Store) (evs : list event) :
  generate_script E w content s = (s', evs, (w', Ok result)) ->
  (exists name,
     last (invoked evs) = Some name /\ name ∈ providers_to_try w /\
     current_provider_name w' = if bool_decide (name = "") then "none" else name)
  /\ (forall w0, _current_provider_name w0 = None -> current_provider_name w0 = "none").
Proof.
  rewrite generate_script_unfold.
  destruct (generate_loop E is_quota_error content (providers_to_try w) w None [] s)
    as [[s1 ev1] [[w1 tried] [res1|le]]] eqn:Hloop; [|discriminate].
  intros Hrun. injection Hrun as <- <- <- <-. split.
  - apply generate_loop_spec in Hloop as (_ & _ & _ & _ & _ & Hr).
    destruct Hr as (pre & name & post & tr & p & Hchain & Hinv & _ & _ & Hn & _).
    exists name. split; [rewrite Hinv; apply last_snoc|].
    split; [rewrite Hchain; set_solver|].
    unfold current_provider_name. by rewrite Hn.
  - intros w0 H0. unfold current_provider_name. by rewrite H0.
Qed.

Lemma current_provider_name_after_success_witness :
  match first_call env_groq_down cfg_groq_hf with
  | Some (_, w', _, _) => current_provider_name w' = "huggingface"
  | None => False
  end.
Proof.
  unfold first_call.
  destruct (fresh env_groq_down cfg_groq_hf) as [[w s]|] eqn:Hfresh;
    [|vm_compute in Hfresh; discriminate].
  destruct (generate_script env_groq_down w "content" s) as [[s' evs] [w' r]] eqn:Hrun.
  assert (r = Ok "R") as ->.
  { vm_compute in Hfresh. injection Hfresh as <- <-.
    vm_compute in Hrun. by injection Hrun as <- <- <- <-. }
  destruct (current_provider_name_after_success env_groq_down w w' "content" "R"
              s s' evs Hrun) as ((name & Hlast & _ & Hcur) & _).
  rewrite Hcur.
  vm_compute in Hfresh. injection Hfresh as <- <-.
  vm_compute in Hrun. injection Hrun as <- <- <-.
  vm_compute in Hlast. injection Hlast as <-. reflexivity.
Defined.
